(** * aLaFrech: the exercise logic of the French practice toolkit

    A shallow embedding of [french_practice/data.py] and
    [french_practice/exercises.py], followed by the properties of the
    session state, the catalog queries, the two exercises and the registry.

    Conventions of the embedding.
    - A Python [str] is the list of its Unicode code points ([pystr]).
    - A Python [int] is a [Z]; Python's [%] with a positive divisor is
      [Z.modulo].
    - A Python [float] is an IEEE 754 binary64 value, a [spec_float] of the
      standard library's [SpecFloat]; [int / int] is the quotient of the
      two integers rounded once, to nearest-even, and raises OverflowError
      when the rounded quotient is too large. [accuracy_float] is the
      [accuracy] property with this float; [accuracy] is the exact quotient
      before rounding, on which the order and display properties are
      stated.
    - A raised exception is the [Raise] result of a small state-and-error
      monad; the state a method has mutated before raising is kept.
    - [random.choice] reads the next value of the generator's stream of
      draws, reduced modulo the length of the sequence. *)

From Stdlib Require Import ZArith NArith QArith Qpower Lia String Ascii SpecFloat.
From Stdlib Require DecimalString.
From stdpp Require Import base option list gmap.

Local Open Scope Z_scope.

(** ** Python strings *)

Definition pystr : Type := list N.

(** Source text is UTF-8: [str] decodes a literal into its code points. *)
Definition utf8_step (st : list N * N * nat) (b : N) : list N * N * nat :=
  let '(out, acc, need) := st in
  match need with
  | O =>
      if (b <? 0x80)%N then (out ++ [b], 0%N, O)
      else if (b <? 0xE0)%N then (out, N.land b 0x1F, 1%nat)
      else if (b <? 0xF0)%N then (out, N.land b 0x0F, 2%nat)
      else (out, N.land b 0x07, 3%nat)
  | S k =>
      let acc' := N.lor (N.shiftl acc 6) (N.land b 0x3F) in
      match k with
      | O => (out ++ [acc'], 0%N, O)
      | S _ => (out, acc', k)
      end
  end.

Fixpoint bytes_of (s : string) : list N :=
  match s with
  | EmptyString => []
  | String a s' => N_of_ascii a :: bytes_of s'
  end.

Definition str (s : string) : pystr :=
  fst (fst (fold_left utf8_step (bytes_of s) ([], 0%N, O))).

(** [str.isspace] of one code point: the whitespace table of the Unicode
    database (bidirectional class WS, B or S, or category Zs). *)
Definition isspace (c : N) : bool :=
  ((0x09 <=? c) && (c <=? 0x0D) || (0x1C <=? c) && (c <=? 0x20)
   || (c =? 0x85) || (c =? 0xA0) || (c =? 0x1680)
   || (0x2000 <=? c) && (c <=? 0x200A)
   || (c =? 0x2028) || (c =? 0x2029) || (c =? 0x202F) || (c =? 0x205F)
   || (c =? 0x3000))%N.

Fixpoint lstrip (s : pystr) : pystr :=
  match s with
  | [] => []
  | c :: s' => if isspace c then lstrip s' else s
  end.

Definition rstrip (s : pystr) : pystr := reverse (lstrip (reverse s)).

(** [s.strip()] *)
Definition strip (s : pystr) : pystr := rstrip (lstrip s).

(** Lower-casing of an ASCII code point. *)
Definition ascii_lower (c : N) : N :=
  if ((0x41 <=? c) && (c <=? 0x5A))%N then (c + 32)%N else c.

Definition is_ascii (c : N) : bool := (c <? 0x80)%N.

Section Strings.

(** The lower-case mapping of the Unicode database for a code point
    outside ASCII: [unicode_lower s i c] is what the character [c] at
    position [i] of [s] maps to (a full mapping may give several code
    points, and capital sigma depends on its neighbours). The database is
    not part of the repository; it is a parameter of the development. *)
Variable unicode_lower : pystr -> nat -> N -> pystr.

Definition lower_at (s : pystr) (i : nat) (c : N) : pystr :=
  if is_ascii c then [ascii_lower c] else unicode_lower s i c.

(** [s.lower()] *)
Definition lower (s : pystr) : pystr :=
  concat (imap (lower_at s) s).

End Strings.

(** [a == b] on strings. *)
Definition str_eq (a b : pystr) : bool := bool_decide (a = b).

(** ** Exceptions and the state-and-error monad *)

Inductive exn : Type :=
| IndexError
| ValueError
| ZeroDivisionError
| OverflowError
| AssertionError
| KeyError (key : pystr).

Inductive result (A : Type) : Type :=
| Ok (a : A)
| Raise (e : exn).

Arguments Ok {A} a.
Arguments Raise {A} e.

(** A computation over a mutable state [S]: it ends with a value or with an
    exception, and in both cases leaves a state behind. *)
Definition M (S A : Type) : Type := S -> result A * S.

Definition ret {S A} (a : A) : M S A := fun s => (Ok a, s).

Definition raise {S A} (e : exn) : M S A := fun s => (Raise e, s).

Definition bind {S A B} (m : M S A) (k : A -> M S B) : M S B :=
  fun s =>
    match m s with
    | (Ok a, s') => k a s'
    | (Raise e, s') => (Raise e, s')
    end.

Definition get {S} : M S S := fun s => (Ok s, s).

Definition modify {S} (f : S -> S) : M S unit := fun s => (Ok tt, f s).

Notation "x <- m ;; k" := (bind m (fun x => k))
  (at level 100, m at next level, right associativity, only parsing).
Notation "m ;;; k" := (bind m (fun _ => k))
  (at level 100, right associativity, only parsing).

(** ** The random generator

    The module-level generator of [random] is a stream of draws and a
    cursor into it. Every stream is a possible generator. *)

Record Rng : Type := mkRng { draws : nat -> nat; cursor : nat }.

Definition randbelow (n : nat) : M Rng nat :=
  fun g => (Ok (draws g (cursor g) mod n)%nat, mkRng (draws g) (S (cursor g))).

(** [random.choice(seq)] *)
Definition choice {A} (seq : list A) : M Rng A :=
  match seq with
  | [] => raise IndexError
  | _ :: _ =>
      i <- randbelow (length seq) ;;
      match seq !! i with
      | Some x => ret x
      | None => raise IndexError
      end
  end.

(** ** data.py *)

Module VocabularyItem.

Record t : Type := mk {
  french : pystr;
  english : pystr;
  category : pystr
}.

#[global] Instance eq_dec : EqDecision t.
Proof. solve_decision. Defined.

End VocabularyItem.

Local Open Scope string_scope.

Definition vocab (f e c : string) : VocabularyItem.t :=
  VocabularyItem.mk (str f) (str e) (str c).

Definition VOCABULARY : list VocabularyItem.t := [
  vocab "bonjour" "hello" "greetings";
  vocab "au revoir" "goodbye" "greetings";
  vocab "s'il vous plaît" "please" "greetings";
  vocab "merci" "thank you" "greetings";
  vocab "pardon" "sorry" "greetings";
  vocab "pain" "bread" "food";
  vocab "fromage" "cheese" "food";
  vocab "eau" "water" "food";
  vocab "pomme" "apple" "food";
  vocab "vin" "wine" "food";
  vocab "maison" "house" "home";
  vocab "chaise" "chair" "home";
  vocab "porte" "door" "home";
  vocab "fenêtre" "window" "home";
  vocab "cuisine" "kitchen" "home";
  vocab "chat" "cat" "animals";
  vocab "chien" "dog" "animals";
  vocab "oiseau" "bird" "animals";
  vocab "poisson" "fish" "animals";
  vocab "cheval" "horse" "animals"
].

Module ConjugationPattern.

Record t : Type := mk {
  infinitive : pystr;
  je : pystr;
  tu : pystr;
  il : pystr;
  nous : pystr;
  vous : pystr;
  ils : pystr
}.

#[global] Instance eq_dec : EqDecision t.
Proof. solve_decision. Defined.

Definition pronouns (self : t) : list pystr :=
  [str "je"; str "tu"; str "il/elle"; str "nous"; str "vous"; str "ils/elles"].

Definition answers (self : t) : list pystr :=
  [je self; tu self; il self; nous self; vous self; ils self].

End ConjugationPattern.

Definition pattern (inf a b c d e f : string) : ConjugationPattern.t :=
  ConjugationPattern.mk (str inf) (str a) (str b) (str c) (str d) (str e) (str f).

Definition PRESENT_TENSE : list ConjugationPattern.t := [
  pattern "parler" "parle" "parles" "parle" "parlons" "parlez" "parlent";
  pattern "finir" "finis" "finis" "finit" "finissons" "finissez" "finissent";
  pattern "avoir" "ai" "as" "a" "avons" "avez" "ont";
  pattern "être" "suis" "es" "est" "sommes" "êtes" "sont";
  pattern "aller" "vais" "vas" "va" "allons" "allez" "vont"
].

(** Truth value of an optional string: [None] and [""] are falsy. *)
Definition truthy (category : option pystr) : bool :=
  match category with
  | None => false
  | Some [] => false
  | Some (_ :: _) => true
  end.

(** [category == "all"], where [None] equals no string. *)
Definition is_all (category : option pystr) : bool :=
  match category with
  | None => false
  | Some c => str_eq c (str "all")
  end.

(** [item.category == category] *)
Definition category_is (category : option pystr) (item : VocabularyItem.t) : bool :=
  match category with
  | None => false
  | Some c => str_eq (VocabularyItem.category item) c
  end.

(** [x in seq] on a list of strings. *)
Definition contains (x : pystr) (seq : list pystr) : bool :=
  existsb (fun y => str_eq y x) seq.

Definition categories (items : list VocabularyItem.t) : list pystr :=
  fold_left
    (fun seen item =>
       if negb (contains (VocabularyItem.category item) seen)
       then (seen ++ [VocabularyItem.category item])%list
       else seen)
    items [].

Section Catalog.

(** The function reads the module-level catalog when it is called; the
    catalog is a variable here and [VOCABULARY] is supplied below. *)
Variable vocabulary : list VocabularyItem.t.

Definition random_vocabulary_item_from (category : option pystr)
  : M Rng VocabularyItem.t :=
  if negb (truthy category) || is_all category then choice vocabulary
  else
    let filtered := List.filter (category_is category) vocabulary in
    match filtered with
    | [] => choice vocabulary
    | _ :: _ => choice filtered
    end.

End Catalog.

Definition random_vocabulary_item : option pystr -> M Rng VocabularyItem.t :=
  random_vocabulary_item_from VOCABULARY.

Definition random_conjugation_pattern : M Rng ConjugationPattern.t :=
  choice PRESENT_TENSE.

(** ** Sequence operations of Python used by exercises.py *)

Local Open Scope Z_scope.
Local Open Scope list_scope.

Definition lift_result {S A} (r : result A) : M S A := fun s => (r, s).

(** [seq[i]], negative indices counting from the end. *)
Definition getitem {A} (seq : list A) (i : Z) : result A :=
  let n := Z.of_nat (length seq) in
  let j := if i <? 0 then i + n else i in
  if (0 <=? j) && (j <? n) then
    match seq !! Z.to_nat j with
    | Some x => Ok x
    | None => Raise IndexError
    end
  else Raise IndexError.

(** [seq.index(x)] *)
Fixpoint index (x : pystr) (seq : list pystr) : result Z :=
  match seq with
  | [] => Raise ValueError
  | y :: seq' =>
      if str_eq y x then Ok 0
      else match index x seq' with
           | Ok i => Ok (i + 1)
           | Raise e => Raise e
           end
  end.

(** [a % b] *)
Definition py_mod (a b : Z) : result Z :=
  if b =? 0 then Raise ZeroDivisionError else Ok (a mod b).

(** ** Floats *)

(** An [int] as the operand of a float operation: the integer itself as
    the mantissa, at exponent 0; nothing is rounded. *)
Definition mantissa (a : Z) : spec_float :=
  match a with
  | Z0 => S754_zero false
  | Zpos p => S754_finite false p 0
  | Zneg p => S754_finite true p 0
  end.

(** [a / b] on two [int]s: ZeroDivisionError for a zero divisor; otherwise
    the binary64 float nearest to the quotient of the two integers (ties
    to even, subnormals included, the sign kept on a zero result), and
    OverflowError ("integer division result too large for a float") when
    that rounding leaves the range of the finite floats. *)
Definition int_truediv (a b : Z) : result spec_float :=
  if b =? 0 then Raise ZeroDivisionError
  else match SFdiv 53 1024 (mantissa a) (mantissa b) with
       | S754_infinity _ => Raise OverflowError
       | q => Ok q
       end.

(** ** exercises.py *)

Module ExerciseState.

Record t : Type := mk {
  total_attempts : Z;
  correct_attempts : Z;
  current_streak : Z
}.

(** [ExerciseState()] *)
Definition init : t := mk 0 0 0.

Definition register_attempt (correct : bool) (self : t) : t :=
  let self := mk (total_attempts self + 1) (correct_attempts self) (current_streak self) in
  if correct then
    let self := mk (total_attempts self) (correct_attempts self + 1) (current_streak self) in
    mk (total_attempts self) (correct_attempts self) (current_streak self + 1)
  else
    mk (total_attempts self) (correct_attempts self) 0.

(** The [accuracy] property: the float [0.0] without attempts, the float
    quotient of the two counters otherwise. *)
Definition accuracy_float (self : t) : result spec_float :=
  if total_attempts self =? 0 then Ok (S754_zero false)
  else int_truediv (correct_attempts self) (total_attempts self).

(** The [accuracy] property before rounding: the exact quotient of the two
    counters. *)
Definition accuracy (self : t) : Q :=
  if total_attempts self =? 0 then 0%Q
  else (inject_Z (correct_attempts self) / inject_Z (total_attempts self))%Q.

End ExerciseState.

(** The state a method of an exercise runs in: the exercise object and the
    generator of the [random] module. *)
Record World (O : Type) : Type := mkWorld { self : O; random : Rng }.

Arguments mkWorld {O} self random.
Arguments self {O} w.
Arguments random {O} w.

Definition with_random {O A} (m : M Rng A) : M (World O) A :=
  fun w => let (r, g) := m (random w) in (r, mkWorld (self w) g).

Definition update_self {O} (f : O -> O) : M (World O) unit :=
  modify (fun w => mkWorld (f (self w)) (random w)).

Module FlashcardExercise.

Record t : Type := mk {
  category : option pystr;
  state : ExerciseState.t;
  current_item : option VocabularyItem.t
}.

(** [FlashcardExercise()] *)
Definition init : t := mk None ExerciseState.init None.

Definition set_current_item (v : option VocabularyItem.t) (e : t) : t :=
  mk (category e) (state e) v.

Definition set_state (s : ExerciseState.t) (e : t) : t :=
  mk (category e) s (current_item e).

Definition next_prompt : M (World t) VocabularyItem.t :=
  w <- get ;;
  item <- with_random (random_vocabulary_item (category (self w))) ;;
  update_self (set_current_item (Some item)) ;;;
  ret item.

Section CheckAnswer.

Variable unicode_lower : pystr -> nat -> N -> pystr.

Definition check_answer (answer : pystr) : M (World t) bool :=
  w <- get ;;
  match current_item (self w) with
  | None => next_prompt ;;; ret tt
  | Some _ => ret tt
  end ;;;
  w <- get ;;
  match current_item (self w) with
  | None => raise AssertionError
  | Some item =>
      let correct :=
        str_eq (lower unicode_lower (strip answer))
               (lower unicode_lower (VocabularyItem.english item)) in
      update_self (fun e => set_state (ExerciseState.register_attempt correct (state e)) e) ;;;
      ret correct
  end.

End CheckAnswer.

End FlashcardExercise.

Module ConjugationExercise.

Record t : Type := mk {
  state : ExerciseState.t;
  current_pattern : option ConjugationPattern.t;
  current_index : Z
}.

(** [ConjugationExercise()] *)
Definition init : t := mk ExerciseState.init None 0.

Definition set_state (s : ExerciseState.t) (e : t) : t :=
  mk s (current_pattern e) (current_index e).

Definition set_current_pattern (p : option ConjugationPattern.t) (e : t) : t :=
  mk (state e) p (current_index e).

Definition set_current_index (i : Z) (e : t) : t :=
  mk (state e) (current_pattern e) i.

Definition next_prompt : M (World t) (pystr * pystr) :=
  pattern <- with_random random_conjugation_pattern ;;
  update_self (set_current_pattern (Some pattern)) ;;;
  i <- lift_result (index (str "je") (ConjugationPattern.pronouns pattern)) ;;
  update_self (set_current_index i) ;;;
  w <- get ;;
  label <- lift_result (getitem (ConjugationPattern.pronouns pattern) (current_index (self w))) ;;
  ret (ConjugationPattern.infinitive pattern, label).

Definition cycle_prompt : M (World t) (pystr * pystr) :=
  w <- get ;;
  match current_pattern (self w) with
  | None => next_prompt
  | Some pattern =>
      i <- lift_result (py_mod (current_index (self w) + 1)
                               (Z.of_nat (length (ConjugationPattern.pronouns pattern)))) ;;
      update_self (set_current_index i) ;;;
      w <- get ;;
      label <- lift_result (getitem (ConjugationPattern.pronouns pattern) (current_index (self w))) ;;
      ret (ConjugationPattern.infinitive pattern, label)
  end.

Section CheckAnswer.

Variable unicode_lower : pystr -> nat -> N -> pystr.

Definition check_answer (answer : pystr) : M (World t) bool :=
  w <- get ;;
  match current_pattern (self w) with
  | None => next_prompt ;;; ret tt
  | Some _ => ret tt
  end ;;;
  w <- get ;;
  match current_pattern (self w) with
  | None => raise AssertionError
  | Some pattern =>
      expected <- lift_result (getitem (ConjugationPattern.answers pattern) (current_index (self w))) ;;
      let correct :=
        str_eq (lower unicode_lower (strip answer)) (lower unicode_lower expected) in
      update_self (fun e => set_state (ExerciseState.register_attempt correct (state e)) e) ;;;
      ret correct
  end.

End CheckAnswer.

End ConjugationExercise.

(** Exercise objects live in a store; constructing one allocates a
    location that no existing object occupies. *)
Inductive Exercise : Type :=
| Flashcard (e : FlashcardExercise.t)
| Conjugation (e : ConjugationExercise.t).

Definition new (o : Exercise) : M (gmap positive Exercise) positive :=
  fun h => let l := fresh (dom h) in (Ok l, <[l := o]> h).

(** The classes, called as zero-argument constructors. *)
Definition FlashcardExercise_new : M (gmap positive Exercise) positive :=
  new (Flashcard FlashcardExercise.init).

Definition ConjugationExercise_new : M (gmap positive Exercise) positive :=
  new (Conjugation ConjugationExercise.init).

(** A [dict] keeps its keys in insertion order: assigning to a key that is
    present replaces the value where it stands, a new key goes last. *)
Section Dict.

Context {V : Type}.

Fixpoint dict_set (k : pystr) (v : V) (d : list (pystr * V)) : list (pystr * V) :=
  match d with
  | [] => [(k, v)]
  | (k', v') :: d' =>
      if str_eq k' k then (k', v) :: d' else (k', v') :: dict_set k v d'
  end.

Fixpoint dict_get (k : pystr) (d : list (pystr * V)) : option V :=
  match d with
  | [] => None
  | (k', v') :: d' => if str_eq k' k then Some v' else dict_get k d'
  end.

Definition dict_keys (d : list (pystr * V)) : list pystr := map fst d.

End Dict.

Module ExerciseRegistry.

(** [Callable[[], object]]: a computation on the object store that
    returns the location of an object, or raises. *)
Definition factory : Type := M (gmap positive Exercise) positive.

Record t : Type := mk { _creators : list (pystr * factory) }.

(** [ExerciseRegistry()] *)
Definition init : t := mk [].

Definition register (name : pystr) (f : factory) (self : t) : t :=
  mk (dict_set name f (_creators self)).

Definition create (name : pystr) (self : t) : M (gmap positive Exercise) positive :=
  match dict_get name (_creators self) with
  | None => raise (KeyError (str "Unknown exercise: " ++ name))
  | Some f => f
  end.

Definition names (self : t) : list pystr := dict_keys (_creators self).

End ExerciseRegistry.

Definition EXERCISES : ExerciseRegistry.t :=
  ExerciseRegistry.register (str "Conjugation") ConjugationExercise_new
    (ExerciseRegistry.register (str "Flashcards") FlashcardExercise_new
       ExerciseRegistry.init).

(** ** Notions used to state the properties *)

(** The session state after a sequence of [register_attempt] calls on a
    new [ExerciseState], the outcomes listed in call order. *)
Definition attempts (outcomes : list bool) : ExerciseState.t :=
  fold_left (fun s correct => ExerciseState.register_attempt correct s)
            outcomes ExerciseState.init.

Fixpoint leading_run (outcomes : list bool) : nat :=
  match outcomes with
  | true :: outcomes' => S (leading_run outcomes')
  | _ => O
  end.

(** Length of the run of [true] outcomes that ends the sequence. *)
Definition trailing_run (outcomes : list bool) : nat :=
  leading_run (rev outcomes).

(** A string all of whose characters are whitespace. *)
Definition all_space (s : pystr) : Prop := Forall (fun c => isspace c = true) s.

(** A string that neither begins nor ends with whitespace. *)
Definition trimmed (s : pystr) : Prop :=
  (forall c, head s = Some c -> isspace c = false)
  /\ (forall c, last s = Some c -> isspace c = false).

(** The comparison policy in the words of the specification: trim the
    submission, lower-case both sides, compare for equality. *)
Definition judged_correct (unicode_lower : pystr -> nat -> N -> pystr)
           (submission target : pystr) : Prop :=
  lower unicode_lower (strip submission) = lower unicode_lower target.

(** [n] consecutive calls of [cycle_prompt], results dropped. *)
Fixpoint cycle_times (n : nat) : M (World ConjugationExercise.t) unit :=
  match n with
  | O => ret tt
  | S n' => ConjugationExercise.cycle_prompt ;;; cycle_times n'
  end.

(** The active slot is one of the six positions. *)
Definition slot_valid (e : ConjugationExercise.t) : Prop :=
  0 <= ConjugationExercise.current_index e < 6.

(** The registry obtained from a new one by [register] calls, listed in
    call order. *)
Definition registered (calls : list (pystr * ExerciseRegistry.factory))
  : ExerciseRegistry.t :=
  fold_left (fun r call => ExerciseRegistry.register (fst call) (snd call) r)
            calls ExerciseRegistry.init.

(** The names of a sequence, each once, in order of first occurrence. *)
Definition distinct (names : list pystr) : list pystr :=
  fold_left (fun seen n => if bool_decide (n ∈ seen) then seen else seen ++ [n])
            names [].

(** The factory most recently registered under a name. *)
Definition latest (name : pystr) (calls : list (pystr * ExerciseRegistry.factory))
  : option ExerciseRegistry.factory :=
  fold_left (fun found call => if str_eq (fst call) name then Some (snd call) else found)
            calls None.

(** The calls a user of a conjugation exercise can make, and the exercise
    a sequence of them leaves behind when started on a new
    [ConjugationExercise()]. *)
Inductive conjugation_call : Type :=
| CallNextPrompt
| CallCyclePrompt
| CallCheckAnswer (answer : pystr).

Definition perform (unicode_lower : pystr -> nat -> N -> pystr)
           (call : conjugation_call) : M (World ConjugationExercise.t) unit :=
  match call with
  | CallNextPrompt => ConjugationExercise.next_prompt ;;; ret tt
  | CallCyclePrompt => ConjugationExercise.cycle_prompt ;;; ret tt
  | CallCheckAnswer answer => ConjugationExercise.check_answer unicode_lower answer ;;; ret tt
  end.

Definition conjugation_session (unicode_lower : pystr -> nat -> N -> pystr)
           (calls : list conjugation_call) (g : Rng) : World ConjugationExercise.t :=
  fold_left (fun w call => snd (perform unicode_lower call w))
            calls (mkWorld ConjugationExercise.init g).

(** [exercise.category = category], the assignment the flashcard tab makes. *)
Definition set_category (c : option pystr) (e : FlashcardExercise.t)
  : FlashcardExercise.t :=
  FlashcardExercise.mk c (FlashcardExercise.state e) (FlashcardExercise.current_item e).

(** The calls a user of a flashcard exercise can make, and the exercise a
    sequence of them leaves behind when started on a new
    [FlashcardExercise()]. *)
Inductive flashcard_call : Type :=
| FlashSetCategory (c : option pystr)
| FlashNextPrompt
| FlashCheckAnswer (answer : pystr).

Definition flashcard_perform (unicode_lower : pystr -> nat -> N -> pystr)
           (call : flashcard_call) : M (World FlashcardExercise.t) unit :=
  match call with
  | FlashSetCategory c => update_self (set_category c)
  | FlashNextPrompt => FlashcardExercise.next_prompt ;;; ret tt
  | FlashCheckAnswer answer => FlashcardExercise.check_answer unicode_lower answer ;;; ret tt
  end.

Definition flashcard_session (unicode_lower : pystr -> nat -> N -> pystr)
           (calls : list flashcard_call) (g : Rng) : World FlashcardExercise.t :=
  fold_left (fun w call => snd (flashcard_perform unicode_lower call w))
            calls (mkWorld FlashcardExercise.init g).

Definition flashcard_checks (call : flashcard_call) : bool :=
  match call with FlashCheckAnswer _ => true | _ => false end.

Definition conjugation_checks (call : conjugation_call) : bool :=
  match call with CallCheckAnswer _ => true | _ => false end.

(** The loop of [categories], started with some names already seen. *)
Definition categories_from (seen : list pystr) (items : list VocabularyItem.t)
  : list pystr :=
  fold_left
    (fun seen item =>
       if negb (contains (VocabularyItem.category item) seen)
       then seen ++ [VocabularyItem.category item]
       else seen)
    items seen.

(** The number a float stands for; [is_finite] tells the zeros and the
    finite floats from the infinities and NaN. *)
Definition float_value (f : spec_float) : Q :=
  match f with
  | S754_finite s m e => ((if s then -1 else 1) * (inject_Z (Zpos m) * 2 ^ e))%Q
  | _ => 0%Q
  end.

Definition is_finite (f : spec_float) : bool :=
  match f with
  | S754_zero _ | S754_finite _ _ _ => true
  | _ => false
  end.

(** The floats [0.0] and [1.0]. *)
Definition float_zero : spec_float := S754_zero false.
Definition float_one : spec_float := S754_finite false 4503599627370496 (-52).

(** The counters after an attempt with the given outcome, field by field:
    one more attempt; one more correct attempt and a streak one longer
    when the attempt was correct; the streak back at 0 when it was not. *)
Definition recorded (correct : bool) (s : ExerciseState.t) : ExerciseState.t :=
  ExerciseState.mk
    (ExerciseState.total_attempts s + 1)
    (if correct then ExerciseState.correct_attempts s + 1
     else ExerciseState.correct_attempts s)
    (if correct then ExerciseState.current_streak s + 1 else 0).

(** What every session state reached from a new one satisfies. *)
Definition counters_ordered (s : ExerciseState.t) : Prop :=
  0 <= ExerciseState.current_streak s <= ExerciseState.correct_attempts s
  /\ ExerciseState.correct_attempts s <= ExerciseState.total_attempts s.

(** ** gui.py

    A tab is represented by the contents of its Tk variables and by the
    exercise it drives; what the user has typed is the content of
    [answer_var]. Widgets and layout are left out. *)

(** [str(n)] of an integer, as an f-string inserts it. *)
Definition str_of_int (n : Z) : pystr :=
  str (DecimalString.NilZero.string_of_int (Z.to_int n)).

(** A method of the exercise, run on the exercise held by a tab. *)
Definition on_exercise {T E A} (get_exercise : T -> E) (set_exercise : E -> T -> T)
           (m : M (World E) A) : M (World T) A :=
  fun w =>
    let (r, w') := m (mkWorld (get_exercise (self w)) (random w)) in
    (r, mkWorld (set_exercise (self w') (self w)) (random w')).

Module StatsBar.

Record t : Type := mk { accuracy_var : pystr; streak_var : pystr }.

(** [StatsBar(master)] *)
Definition init : t := mk (str "Accuracy: 0%") (str "Streak: 0").

Section Format.

(** [f"{accuracy:.0%}"]: the float formatted as a percentage without
    decimals. The formatting of floats is not part of the repository; it is
    a parameter. *)
Variable format_percent : Q -> pystr.

Definition update_state (accuracy : Q) (streak : Z) (self : t) : t :=
  let self := mk (str "Accuracy: " ++ format_percent accuracy) (streak_var self) in
  mk (accuracy_var self) (str "Streak: " ++ str_of_int streak).

End Format.

End StatsBar.

Module FlashcardTab.

Record t : Type := mk {
  exercise : FlashcardExercise.t;
  prompt_var : pystr;
  feedback_var : pystr;
  answer_var : pystr;
  category_var : pystr;
  stats : StatsBar.t
}.

(** [FlashcardTab(master, exercise)] *)
Definition init (exercise : FlashcardExercise.t) : t :=
  mk exercise (str "Press Next to start") (str "") (str "") (str "all") StatsBar.init.

Definition set_exercise (e : FlashcardExercise.t) (tab : t) : t :=
  mk e (prompt_var tab) (feedback_var tab) (answer_var tab) (category_var tab) (stats tab).

Definition set_prompt_var (v : pystr) (tab : t) : t :=
  mk (exercise tab) v (feedback_var tab) (answer_var tab) (category_var tab) (stats tab).

Definition set_feedback_var (v : pystr) (tab : t) : t :=
  mk (exercise tab) (prompt_var tab) v (answer_var tab) (category_var tab) (stats tab).

Definition set_answer_var (v : pystr) (tab : t) : t :=
  mk (exercise tab) (prompt_var tab) (feedback_var tab) v (category_var tab) (stats tab).

Definition set_stats (v : StatsBar.t) (tab : t) : t :=
  mk (exercise tab) (prompt_var tab) (feedback_var tab) (answer_var tab) (category_var tab) v.

Definition _next : M (World t) unit :=
  item <- on_exercise exercise set_exercise FlashcardExercise.next_prompt ;;
  update_self (set_prompt_var (str "Translate: " ++ VocabularyItem.french item)) ;;;
  update_self (set_answer_var (str "")) ;;;
  update_self (set_feedback_var (str "")).

Definition _change_category (category : pystr) : M (World t) unit :=
  update_self (fun tab => set_exercise (set_category (Some category) (exercise tab)) tab) ;;;
  _next.

Definition _reveal_answer : M (World t) unit :=
  w <- get ;;
  match FlashcardExercise.current_item (exercise (self w)) with
  | Some item =>
      update_self (set_feedback_var (str "Answer: " ++ VocabularyItem.english item))
  | None => ret tt
  end.

Section Handlers.

Variable unicode_lower : pystr -> nat -> N -> pystr.
Variable format_percent : Q -> pystr.

Definition _refresh_stats : M (World t) unit :=
  w <- get ;;
  let state := FlashcardExercise.state (exercise (self w)) in
  update_self (fun tab =>
    set_stats (StatsBar.update_state format_percent
                 (ExerciseState.accuracy state) (ExerciseState.current_streak state)
                 (stats tab)) tab).

Definition _check_answer : M (World t) unit :=
  w <- get ;;
  match answer_var (self w) with
  | [] => update_self (set_feedback_var (str "Type your answer first."))
  | _ :: _ =>
      correct <- on_exercise exercise set_exercise
                   (FlashcardExercise.check_answer unicode_lower (answer_var (self w))) ;;
      (if correct then
         update_self (set_feedback_var (str "Correct! 🎉")) ;;;
         _next
       else
         w <- get ;;
         match FlashcardExercise.current_item (exercise (self w)) with
         | None => raise AssertionError
         | Some item =>
             update_self (set_feedback_var
                            (str "Not quite. Answer: " ++ VocabularyItem.english item))
         end) ;;;
      _refresh_stats
  end.

End Handlers.

End FlashcardTab.

Module ConjugationTab.

Record t : Type := mk {
  exercise : ConjugationExercise.t;
  verb_var : pystr;
  pronoun_var : pystr;
  feedback_var : pystr;
  answer_var : pystr;
  stats : StatsBar.t
}.

(** [ConjugationTab(master, exercise)] *)
Definition init (exercise : ConjugationExercise.t) : t :=
  mk exercise (str "Press Next") (str "je") (str "") (str "") StatsBar.init.

Definition set_exercise (e : ConjugationExercise.t) (tab : t) : t :=
  mk e (verb_var tab) (pronoun_var tab) (feedback_var tab) (answer_var tab) (stats tab).

Definition set_verb_var (v : pystr) (tab : t) : t :=
  mk (exercise tab) v (pronoun_var tab) (feedback_var tab) (answer_var tab) (stats tab).

Definition set_pronoun_var (v : pystr) (tab : t) : t :=
  mk (exercise tab) (verb_var tab) v (feedback_var tab) (answer_var tab) (stats tab).

Definition set_feedback_var (v : pystr) (tab : t) : t :=
  mk (exercise tab) (verb_var tab) (pronoun_var tab) v (answer_var tab) (stats tab).

Definition set_answer_var (v : pystr) (tab : t) : t :=
  mk (exercise tab) (verb_var tab) (pronoun_var tab) (feedback_var tab) v (stats tab).

Definition set_stats (v : StatsBar.t) (tab : t) : t :=
  mk (exercise tab) (verb_var tab) (pronoun_var tab) (feedback_var tab) (answer_var tab) v.

Definition _next : M (World t) unit :=
  prompt <- on_exercise exercise set_exercise ConjugationExercise.next_prompt ;;
  let (verb, pronoun) := prompt in
  update_self (set_verb_var (str "Verb: " ++ verb)) ;;;
  update_self (set_pronoun_var (str "Pronoun: " ++ pronoun)) ;;;
  update_self (set_answer_var (str "")) ;;;
  update_self (set_feedback_var (str "")).

Definition _cycle_pronoun : M (World t) unit :=
  prompt <- on_exercise exercise set_exercise ConjugationExercise.cycle_prompt ;;
  let (verb, pronoun) := prompt in
  update_self (set_verb_var (str "Verb: " ++ verb)) ;;;
  update_self (set_pronoun_var (str "Pronoun: " ++ pronoun)) ;;;
  update_self (set_answer_var (str "")) ;;;
  update_self (set_feedback_var (str "")).

Section Handlers.

Variable unicode_lower : pystr -> nat -> N -> pystr.
Variable format_percent : Q -> pystr.

Definition _refresh_stats : M (World t) unit :=
  w <- get ;;
  let state := ConjugationExercise.state (exercise (self w)) in
  update_self (fun tab =>
    set_stats (StatsBar.update_state format_percent
                 (ExerciseState.accuracy state) (ExerciseState.current_streak state)
                 (stats tab)) tab).

Definition _check : M (World t) unit :=
  w <- get ;;
  match answer_var (self w) with
  | [] => update_self (set_feedback_var (str "Enter a conjugation first."))
  | _ :: _ =>
      correct <- on_exercise exercise set_exercise
                   (ConjugationExercise.check_answer unicode_lower (answer_var (self w))) ;;
      (if correct then
         update_self (set_feedback_var (str "Great job! ✅"))
       else
         w <- get ;;
         match ConjugationExercise.current_pattern (exercise (self w)) with
         | None => raise AssertionError
         | Some pattern =>
             expected <- lift_result
                           (getitem (ConjugationPattern.answers pattern)
                                    (ConjugationExercise.current_index (exercise (self w)))) ;;
             update_self (set_feedback_var (str "Try again. Answer: " ++ expected))
         end) ;;;
      _refresh_stats
  end.

End Handlers.

End ConjugationTab.

(** What the user can do on the flashcard tab. Typing changes the content
    of [answer_var]; the option menu stores the choice in [category_var]
    and then calls the command with it. *)
Inductive flashcard_event : Type :=
| PressNext
| PressCheck
| PressReveal
| ChooseCategory (c : pystr)
| TypeAnswer (text : pystr).

Definition set_category_var (v : pystr) (tab : FlashcardTab.t) : FlashcardTab.t :=
  FlashcardTab.mk (FlashcardTab.exercise tab) (FlashcardTab.prompt_var tab)
                  (FlashcardTab.feedback_var tab) (FlashcardTab.answer_var tab) v
                  (FlashcardTab.stats tab).

Definition flashcard_tab_handle (unicode_lower : pystr -> nat -> N -> pystr)
           (format_percent : Q -> pystr) (event : flashcard_event)
  : M (World FlashcardTab.t) unit :=
  match event with
  | PressNext => FlashcardTab._next
  | PressCheck => FlashcardTab._check_answer unicode_lower format_percent
  | PressReveal => FlashcardTab._reveal_answer
  | ChooseCategory c =>
      update_self (set_category_var c) ;;; FlashcardTab._change_category c
  | TypeAnswer text => update_self (FlashcardTab.set_answer_var text)
  end.

(** The tab after a sequence of events, started as the application starts
    it: on a new [FlashcardExercise()]. *)
Definition flashcard_tab_session (unicode_lower : pystr -> nat -> N -> pystr)
           (format_percent : Q -> pystr) (events : list flashcard_event) (g : Rng)
  : World FlashcardTab.t :=
  fold_left (fun w event => snd (flashcard_tab_handle unicode_lower format_percent event w))
            events (mkWorld (FlashcardTab.init FlashcardExercise.init) g).

(** The statistics bar shows the accuracy and the streak of a session state. *)
Definition stats_show (format_percent : Q -> pystr) (state : ExerciseState.t)
           (bar : StatsBar.t) : Prop :=
  StatsBar.accuracy_var bar = str "Accuracy: " ++ format_percent (ExerciseState.accuracy state)
  /\ StatsBar.streak_var bar = str "Streak: " ++ str_of_int (ExerciseState.current_streak state).

(** The prompt of the flashcard tab asks for the item the exercise holds. *)
Definition prompt_shows (tab : FlashcardTab.t) : Prop :=
  exists item,
    FlashcardExercise.current_item (FlashcardTab.exercise tab) = Some item
    /\ item ∈ VOCABULARY
    /\ FlashcardTab.prompt_var tab = str "Translate: " ++ VocabularyItem.french item.

(** What the user can do on the conjugation tab. *)
Inductive conjugation_event : Type :=
| PressNewVerb
| PressNextPronoun
| PressCheckConjugation
| TypeConjugation (text : pystr).

Definition conjugation_tab_handle (unicode_lower : pystr -> nat -> N -> pystr)
           (format_percent : Q -> pystr) (event : conjugation_event)
  : M (World ConjugationTab.t) unit :=
  match event with
  | PressNewVerb => ConjugationTab._next
  | PressNextPronoun => ConjugationTab._cycle_pronoun
  | PressCheckConjugation => ConjugationTab._check unicode_lower format_percent
  | TypeConjugation text => update_self (ConjugationTab.set_answer_var text)
  end.

(** The tab after a sequence of events, started as the application starts
    it: on a new [ConjugationExercise()]. *)
Definition conjugation_tab_session (unicode_lower : pystr -> nat -> N -> pystr)
           (format_percent : Q -> pystr) (events : list conjugation_event) (g : Rng)
  : World ConjugationTab.t :=
  fold_left
    (fun w event => snd (conjugation_tab_handle unicode_lower format_percent event w))
    events (mkWorld (ConjugationTab.init ConjugationExercise.init) g).

(** The conjugation tab displays the verb of the pattern the exercise
    holds and the pronoun of its active slot. *)
Definition verb_shows (tab : ConjugationTab.t) : Prop :=
  exists pattern label,
    ConjugationExercise.current_pattern (ConjugationTab.exercise tab) = Some pattern
    /\ pattern ∈ PRESENT_TENSE
    /\ ConjugationPattern.pronouns pattern
         !! Z.to_nat (ConjugationExercise.current_index (ConjugationTab.exercise tab))
       = Some label
    /\ ConjugationTab.verb_var tab = str "Verb: " ++ ConjugationPattern.infinitive pattern
    /\ ConjugationTab.pronoun_var tab = str "Pronoun: " ++ label.

(** * Properties *)

(** ** Float division *)

Section FloatDivision.

(** [shr_1] halves the mantissa. *)
Lemma shr_1_mantissa (mrs : shr_record) :
  0 <= shr_m mrs -> shr_m (shr_1 mrs) = shr_m mrs / 2.
Proof.
  destruct mrs as [m r s]. cbn [shr_m]. intros Hm.
  destruct m as [|[p|p|]|p]; cbn [shr_1 shr_m]; try lia.
  - reflexivity.
  - apply (Z.div_unique (Zpos p~1) 2 (Zpos p) 1); lia.
  - apply (Z.div_unique (Zpos p~0) 2 (Zpos p) 0); lia.
  - reflexivity.
Qed.

(** Shifting the mantissa right by [p] bits divides it by [2 ^ p]. *)
Lemma iter_shr_1_mantissa (p : positive) (mrs : shr_record) :
  0 <= shr_m mrs ->
  shr_m (SpecFloat.iter_pos shr_1 p mrs) = shr_m mrs / 2 ^ Zpos p.
Proof.
  assert (forall k, 0 < 2 ^ Zpos k) as Hpow by (intros k; now apply Z.pow_pos_nonneg).
  revert mrs. induction p as [p IH|p IH|]; intros mrs Hm; cbn [SpecFloat.iter_pos].
  - assert (0 <= shr_m (shr_1 mrs)) as H1
        by (rewrite shr_1_mantissa by exact Hm; apply Z.div_pos; lia).
    assert (0 <= shr_m (SpecFloat.iter_pos shr_1 p (shr_1 mrs))) as H2
        by (rewrite (IH _ H1); apply Z.div_pos; [exact H1 | apply Hpow]).
    rewrite (IH _ H2), (IH _ H1), (shr_1_mantissa _ Hm).
    pose proof (Hpow p).
    assert (2 ^ Zpos p~1 = 2 * 2 ^ Zpos p * 2 ^ Zpos p) as ->.
    { rewrite <- Z.pow_succ_r, <- Z.pow_add_r by lia. f_equal. lia. }
    rewrite !Z.div_div by lia. f_equal. ring.
  - assert (0 <= shr_m (SpecFloat.iter_pos shr_1 p mrs)) as H1
        by (rewrite (IH _ Hm); apply Z.div_pos; [exact Hm | apply Hpow]).
    rewrite (IH _ H1), (IH _ Hm).
    pose proof (Hpow p).
    assert (2 ^ Zpos p~0 = 2 ^ Zpos p * 2 ^ Zpos p) as ->.
    { rewrite <- Z.pow_add_r by lia. f_equal. lia. }
    now rewrite Z.div_div by lia.
  - now rewrite (shr_1_mantissa _ Hm).
Qed.

Lemma shr_record_of_loc_mantissa (m : Z) (l : location) :
  shr_m (shr_record_of_loc m l) = m.
Proof. now destruct l as [|[]]. Qed.

(** [shr_fexp] divides the mantissa by a power of two and raises the
    exponent by as much. *)
Lemma shr_fexp_mantissa (m e : Z) (l : location) :
  0 <= m ->
  let n := Z.max 0 (fexp 53 1024 (Zdigits2 m + e) - e) in
  shr_m (fst (shr_fexp 53 1024 m e l)) = m / 2 ^ n
  /\ snd (shr_fexp 53 1024 m e l) = e + n.
Proof.
  intros Hm n. unfold shr_fexp, shr. subst n.
  destruct (fexp 53 1024 (Zdigits2 m + e) - e) as [|p|p] eqn:E; cbn [fst snd].
  - rewrite shr_record_of_loc_mantissa, Z.div_1_r. lia.
  - rewrite iter_shr_1_mantissa by now rewrite shr_record_of_loc_mantissa.
    rewrite shr_record_of_loc_mantissa.
    replace (Z.max 0 (Zpos p)) with (Zpos p) by lia. now split.
  - rewrite shr_record_of_loc_mantissa.
    replace (Z.max 0 (Zneg p)) with 0 by lia. rewrite Z.div_1_r. lia.
Qed.

Lemma digits2_pos_lower (p : positive) :
  2 ^ (Zpos (digits2_pos p) - 1) <= Zpos p.
Proof.
  induction p as [p IH|p IH|]; cbn [digits2_pos].
  - rewrite Pos2Z.inj_succ.
    replace (Z.succ (Zpos (digits2_pos p)) - 1) with (Z.succ (Zpos (digits2_pos p) - 1)) by lia.
    rewrite Z.pow_succ_r by lia. lia.
  - rewrite Pos2Z.inj_succ.
    replace (Z.succ (Zpos (digits2_pos p)) - 1) with (Z.succ (Zpos (digits2_pos p) - 1)) by lia.
    rewrite Z.pow_succ_r by lia. lia.
  - reflexivity.
Qed.

Lemma Zdigits2_upper (m k : Z) : 0 <= k -> 0 <= m < 2 ^ k -> Zdigits2 m <= k.
Proof.
  intros Hk [Hm Hlt]. destruct m as [|p|p]; [exact Hk | | lia].
  cbn [Zdigits2]. destruct (Z_le_gt_dec (Zpos (digits2_pos p)) k) as [H|H]; [exact H|].
  pose proof (digits2_pos_lower p) as Hlow.
  assert (2 ^ k <= 2 ^ (Zpos (digits2_pos p) - 1)) by (apply Z.pow_le_mono_r; lia).
  lia.
Qed.

Lemma round_nearest_even_bounds (m : Z) (l : location) :
  m <= round_nearest_even m l <= m + 1.
Proof.
  destruct l as [|[]]; cbn [round_nearest_even]; try lia.
  destruct (Z.even m); lia.
Qed.

(** Rounding a value below 1 gives a float that is at most 1. *)
Lemma binary_round_aux_unit (q e : Z) (l : location) :
  e <= 0 -> 0 <= q < 2 ^ (- e) ->
  match binary_round_aux 53 1024 false q e l with
  | S754_zero false => True
  | S754_finite false m e' => e' <= 0 /\ Zpos m <= 2 ^ (- e')
  | _ => False
  end.
Proof.
  intros He [Hq Hlt]. unfold binary_round_aux.
  destruct (shr_fexp_mantissa q e l Hq) as [Hm1 He1].
  destruct (shr_fexp 53 1024 q e l) as [mrs1 e1]. cbn [fst snd] in Hm1, He1.
  set (n1 := Z.max 0 (fexp 53 1024 (Zdigits2 q + e) - e)) in *.
  assert (e1 <= 0) as He1'.
  { pose proof (Zdigits2_upper q (- e) ltac:(lia) (conj Hq Hlt)).
    unfold fexp, emin in n1. lia. }
  assert (0 <= shr_m mrs1 < 2 ^ (- e1)) as Hb1.
  { rewrite Hm1. split; [apply Z.div_pos; lia|].
    apply Z.div_lt_upper_bound; [lia|].
    rewrite <- Z.pow_add_r by lia. now replace (n1 + - e1) with (- e) by lia. }
  pose proof (round_nearest_even_bounds (shr_m mrs1) (loc_of_shr_record mrs1)) as Hb2.
  set (m2 := round_nearest_even (shr_m mrs1) (loc_of_shr_record mrs1)) in *.
  destruct (shr_fexp_mantissa m2 e1 loc_Exact ltac:(lia)) as [Hm3 He3].
  destruct (shr_fexp 53 1024 m2 e1 loc_Exact) as [mrs3 e3]. cbn [fst snd] in Hm3, He3.
  set (n2 := Z.max 0 (fexp 53 1024 (Zdigits2 m2 + e1) - e1)) in *.
  assert (0 <= m2 / 2 ^ n2) as Hpos3 by (apply Z.div_pos; lia).
  rewrite Hm3. clear Hm3.
  destruct (m2 / 2 ^ n2) as [|m3|m3] eqn:E3; [exact I | | lia].
  assert (2 ^ n2 <= m2) as Hn2.
  { destruct (Z_lt_le_dec m2 (2 ^ n2)) as [H|H]; [|exact H].
    rewrite Z.div_small in E3 by lia. discriminate E3. }
  assert (n2 <= - e1) as Hn2'.
  { apply (Z.pow_le_mono_r_iff 2); lia. }
  assert (e3 <= 0) as He3' by lia.
  assert ((e3 <=? 1024 - 53) = true) as -> by (apply Z.leb_le; lia).
  split; [exact He3'|].
  rewrite <- E3. apply Z.div_le_upper_bound; [lia|].
  rewrite <- Z.pow_add_r by lia. replace (n2 + - e3) with (- e1) by lia. lia.
Qed.


Lemma SFdiv_core_quotient (a b : positive) :
  let e := Z.min (fexp 53 1024 (Zpos (digits2_pos a) - Zpos (digits2_pos b))) 0 in
  SFdiv_core_binary 53 1024 (Zpos a) 0 (Zpos b) 0
  = ((Zpos a * 2 ^ (- e)) / Zpos b, e,
     new_location (Zpos b) ((Zpos a * 2 ^ (- e)) mod Zpos b)).
Proof.
  intros e. unfold SFdiv_core_binary. cbn [Zdigits2].
  rewrite !Z.add_0_r, Z.sub_diag. fold e.
  assert (e <= 0) as He by (subst e; lia).
  assert (match 0 - e with
          | 0 => Zpos a
          | Zpos _ => Z.shiftl (Zpos a) (0 - e)
          | Zneg _ => 0
          end = Zpos a * 2 ^ (- e)) as ->.
  { replace (0 - e) with (- e) by lia.
    destruct (- e) as [|p|p] eqn:E; [lia | | lia].
    apply Z.shiftl_mul_pow2. lia. }
  unfold Z.div, Z.modulo.
  now destruct (Z.div_eucl (Zpos a * 2 ^ (- e)) (Zpos b)).
Qed.

(** A quotient of positive integers below 1 rounds to a float in [0,1]. *)
Lemma SFdiv_unit (a b : positive) :
  (a < b)%positive ->
  match SFdiv 53 1024 (S754_finite false a 0) (S754_finite false b 0) with
  | S754_zero false => True
  | S754_finite false m e => e <= 0 /\ Zpos m <= 2 ^ (- e)
  | _ => False
  end.
Proof.
  intros Hab. cbn [SFdiv xorb]. rewrite SFdiv_core_quotient.
  set (e := Z.min _ 0).
  assert (e <= 0) as He by (subst e; lia).
  apply binary_round_aux_unit; [exact He|].
  split.
  - apply Z.div_pos; [|lia]. apply Z.mul_nonneg_nonneg; [lia|]. apply Z.pow_nonneg. lia.
  - apply Z.div_lt_upper_bound; [lia|].
    apply Z.mul_lt_mono_pos_r; [apply Z.pow_pos_nonneg; lia | lia].
Qed.

(** A positive integer divided by itself is the float 1. *)
Lemma SFdiv_diag (a : positive) :
  SFdiv 53 1024 (S754_finite false a 0) (S754_finite false a 0) = float_one.
Proof.
  cbn [SFdiv xorb]. rewrite SFdiv_core_quotient, Z.sub_diag.
  change (Z.min (fexp 53 1024 0) 0) with (-53).
  change (- -53) with 53.
  rewrite Z.mul_comm, Z.div_mul, Z.mod_mul by lia.
  assert (new_location (Zpos a) 0 = loc_Exact) as ->.
  { unfold new_location, new_location_even, new_location_odd.
    now destruct (Z.even (Zpos a)). }
  vm_compute. reflexivity.
Qed.


Lemma float_value_unit (m : positive) (e : Z) :
  e <= 0 -> Zpos m <= 2 ^ (- e) ->
  (0 <= float_value (S754_finite false m e) <= 1)%Q.
Proof.
  intros He Hm. cbn [float_value]. rewrite Qmult_1_l.
  assert (2 ^ e == / inject_Z (2 ^ (- e)))%Q as ->.
  { rewrite Zpower_Qpower by lia. rewrite <- Qpower_opp.
    now replace (- - e) with e by lia. }
  assert (0 < 2 ^ (- e)) as Hpos by (apply Z.pow_pos_nonneg; lia).
  destruct (2 ^ (- e)) as [|k|k]; [lia | | lia].
  unfold Qle, Qmult, Qinv, inject_Z. cbn. lia.
Qed.

(** Dividing an integer by a larger positive one raises nothing and gives
    a float in [0,1]; dividing a positive integer by itself gives [1.0]. *)
Lemma int_truediv_unit (a b : Z) :
  0 <= a <= b -> b <> 0 ->
  exists f, int_truediv a b = Ok f /\ is_finite f = true
            /\ (0 <= float_value f <= 1)%Q.
Proof.
  intros Hab Hb. unfold int_truediv.
  destruct (Z.eqb_spec b 0) as [|_]; [contradiction|].
  destruct b as [|b|b]; [lia | | lia].
  destruct a as [|a|a]; [| | lia].
  - exists (S754_zero false). repeat split; discriminate.
  - destruct (Pos.eq_dec a b) as [->|Hne].
    + cbn [mantissa]. rewrite SFdiv_diag. exists float_one.
      repeat split; discriminate.
    + pose proof (SFdiv_unit a b ltac:(lia)) as H. cbn [mantissa].
      destruct (SFdiv 53 1024 (S754_finite false a 0) (S754_finite false b 0))
        as [[|]|[|]| |[|] m e]; try contradiction.
      * exists (S754_zero false). repeat split; discriminate.
      * exists (S754_finite false m e). destruct H as [He Hm].
        split; [reflexivity | split; [reflexivity|]].
        now apply float_value_unit.
Qed.

Lemma int_truediv_diag (a : Z) : 0 < a -> int_truediv a a = Ok float_one.
Proof.
  intros Ha. unfold int_truediv.
  destruct (Z.eqb_spec a 0) as [|_]; [lia|].
  destruct a as [|a|a]; [lia | | lia].
  cbn [mantissa]. now rewrite SFdiv_diag.
Qed.

End FloatDivision.

(** ** Session state *)

Section SessionState.

Import ExerciseState.

Lemma attempts_snoc (outcomes : list bool) (correct : bool) :
  attempts (outcomes ++ [correct]) = register_attempt correct (attempts outcomes).
Proof. unfold attempts. now rewrite fold_left_app. Qed.

Lemma trailing_run_snoc (outcomes : list bool) (correct : bool) :
  trailing_run (outcomes ++ [correct])
  = if correct then S (trailing_run outcomes) else O.
Proof.
  unfold trailing_run. rewrite rev_app_distr. now destruct correct.
Qed.

Lemma register_attempt_fields (correct : bool) (s : t) :
  total_attempts (register_attempt correct s) = total_attempts s + 1
  /\ correct_attempts (register_attempt correct s)
     = (if correct then correct_attempts s + 1 else correct_attempts s)
  /\ current_streak (register_attempt correct s)
     = (if correct then current_streak s + 1 else 0).
Proof. now destruct correct. Qed.

Lemma register_attempt_ordered (correct : bool) (s : t) :
  counters_ordered s -> counters_ordered (register_attempt correct s).
Proof.
  unfold counters_ordered. intros H.
  destruct (register_attempt_fields correct s) as (-> & -> & ->).
  destruct correct; lia.
Qed.

Lemma attempts_ordered (outcomes : list bool) :
  counters_ordered (attempts outcomes).
Proof.
  induction outcomes as [|correct outcomes IH] using rev_ind.
  - unfold counters_ordered; simpl; lia.
  - rewrite attempts_snoc. now apply register_attempt_ordered.
Qed.

Lemma attempts_streak (outcomes : list bool) :
  current_streak (attempts outcomes) = Z.of_nat (trailing_run outcomes).
Proof.
  induction outcomes as [|correct outcomes IH] using rev_ind.
  - reflexivity.
  - rewrite attempts_snoc, trailing_run_snoc.
    destruct (register_attempt_fields correct (attempts outcomes)) as (_ & _ & ->).
    destruct correct; [rewrite IH; lia | reflexivity].
Qed.

Lemma attempts_total (outcomes : list bool) :
  total_attempts (attempts outcomes) = Z.of_nat (length outcomes).
Proof.
  induction outcomes as [|correct outcomes IH] using rev_ind.
  - reflexivity.
  - rewrite attempts_snoc, length_app.
    destruct (register_attempt_fields correct (attempts outcomes)) as (-> & _).
    simpl. lia.
Qed.

(** C1. In any sequence of [register_attempt] calls on a new session
    state, each call leaves [correct_attempts <= total_attempts], raises
    [total_attempts] by exactly 1 (to the number of calls so far), raises
    [correct_attempts] and [current_streak] by 1 when the attempt is
    correct and otherwise keeps the former and resets the latter to 0;
    [current_streak] is then the length of the run of correct outcomes
    that ends the sequence so far. *)
Theorem register_attempt_sequence (outcomes : list bool) (correct : bool) :
  let before := attempts outcomes in
  let after := register_attempt correct before in
  after = attempts (outcomes ++ [correct])
  /\ correct_attempts after <= total_attempts after
  /\ total_attempts after = total_attempts before + 1
  /\ total_attempts after = Z.of_nat (length (outcomes ++ [correct]))
  /\ correct_attempts after
     = (if correct then correct_attempts before + 1 else correct_attempts before)
  /\ current_streak after = (if correct then current_streak before + 1 else 0)
  /\ current_streak after = Z.of_nat (trailing_run (outcomes ++ [correct])).
Proof.
  intros before after.
  assert (after = attempts (outcomes ++ [correct])) as E
    by (symmetry; apply attempts_snoc).
  destruct (register_attempt_fields correct before) as (Ht & Hc & Hs).
  repeat split; try assumption.
  - rewrite E. apply attempts_ordered.
  - rewrite E. apply attempts_total.
  - rewrite E. apply attempts_streak.
Qed.

(** C9. After each call of a sequence of [register_attempt] calls on a new
    session state, [current_streak <= correct_attempts], and hence
    [current_streak <= total_attempts]. *)
Theorem streak_le_correct (outcomes : list bool) (correct : bool) :
  let after := register_attempt correct (attempts outcomes) in
  current_streak after <= correct_attempts after
  /\ current_streak after <= total_attempts after.
Proof.
  intros after.
  pose proof (attempts_ordered (outcomes ++ [correct])) as H.
  rewrite attempts_snoc in H. fold after in H.
  unfold counters_ordered in H. lia.
Qed.

Lemma accuracy_float_quotient (s : t) :
  total_attempts s <> 0 ->
  accuracy_float s = int_truediv (correct_attempts s) (total_attempts s).
Proof.
  intros H. unfold accuracy_float.
  destruct (Z.eqb_spec (total_attempts s) 0); [contradiction | reflexivity].
Qed.


(** The float quotient is rounded: one correct attempt in three gives the
    double nearest to 1/3; a quotient too small for a float gives 0.0
    although an attempt was correct; a quotient too large for a float
    raises OverflowError; a zero keeps the sign of the quotient. *)
Lemma accuracy_float_rounds :
  accuracy_float (mk 3 1 0) = Ok (S754_finite false 6004799503160661 (-54))
  /\ accuracy_float (mk (10 ^ 400) 1 0) = Ok float_zero
  /\ accuracy_float (mk 1 (10 ^ 400) 0) = Raise OverflowError
  /\ accuracy_float (mk (-1) 0 0) = Ok (S754_zero true).
Proof. split; [|split; [|split]]; vm_compute; reflexivity. Qed.

(** C3, as the code has it. [accuracy] returns the float 0.0 when
    [total_attempts] is 0, without dividing, and otherwise the float
    quotient [correct_attempts / total_attempts], which is a zero again
    when [correct_attempts] is 0. Whenever [0 <= correct_attempts <=
    total_attempts], as in every state reached from a new session state
    by [register_attempt] calls, the division raises nothing and the float
    returned lies in [0,1]. *)
Theorem accuracy_spec (s : t) :
  (total_attempts s = 0 -> accuracy_float s = Ok float_zero)
  /\ (total_attempts s <> 0 ->
      accuracy_float s = int_truediv (correct_attempts s) (total_attempts s))
  /\ (total_attempts s <> 0 -> correct_attempts s = 0 ->
      accuracy_float s = Ok (S754_zero (total_attempts s <? 0)))
  /\ (0 <= correct_attempts s <= total_attempts s ->
      exists f, accuracy_float s = Ok f /\ is_finite f = true
                /\ (0 <= float_value f <= 1)%Q)
  /\ (forall outcomes,
        s = attempts outcomes ->
        exists f, accuracy_float s = Ok f /\ is_finite f = true
                  /\ (0 <= float_value f <= 1)%Q).
Proof.
  pose proof (accuracy_float_quotient s) as Hquot.
  assert (0 <= correct_attempts s <= total_attempts s ->
          exists f, accuracy_float s = Ok f /\ is_finite f = true
                    /\ (0 <= float_value f <= 1)%Q) as Hbound.
  { intros Hc. destruct (Z.eq_dec (total_attempts s) 0) as [E|E].
    - exists float_zero. unfold accuracy_float. rewrite E.
      repeat split; discriminate.
    - rewrite (Hquot E). now apply int_truediv_unit. }
  split; [|split; [|split; [|split]]].
  - intros E. unfold accuracy_float. now rewrite E.
  - exact Hquot.
  - intros Ht Hc. rewrite (Hquot Ht), Hc. unfold int_truediv.
    destruct (Z.eqb_spec (total_attempts s) 0) as [|_]; [contradiction|].
    now destruct (total_attempts s).
  - exact Hbound.
  - intros outcomes ->. apply Hbound.
    pose proof (attempts_ordered outcomes) as H.
    unfold counters_ordered in H. lia.
Qed.

End SessionState.

(** C3 as stated fails: after one incorrect attempt [accuracy] is 0.0
    although [total_attempts] is 1; and a state holding more correct
    attempts than attempts has the accuracy 5.0, above 1. *)
Lemma accuracy_zero_with_attempts :
  (let s := ExerciseState.register_attempt false ExerciseState.init in
   ExerciseState.accuracy_float s = Ok float_zero
   /\ ExerciseState.total_attempts s = 1)
  /\ ~ (forall s, ExerciseState.accuracy_float s = Ok float_zero
                  <-> ExerciseState.total_attempts s = 0)
  /\ (ExerciseState.accuracy_float (ExerciseState.mk 1 5 0)
      = Ok (S754_finite false 5629499534213120 (-50))
      /\ (float_value (S754_finite false 5629499534213120 (-50)) == 5)%Q)
  /\ ~ (forall s f, ExerciseState.accuracy_float s = Ok f
                    -> (0 <= float_value f <= 1)%Q).
Proof.
  split; [split; reflexivity | split; [|split]].
  - intros H.
    destruct (H (ExerciseState.register_attempt false ExerciseState.init)) as [H1 _].
    discriminate H1. reflexivity.
  - split; reflexivity.
  - intros H.
    destruct (H (ExerciseState.mk 1 5 0) _ eq_refl) as [_ H1].
    now apply H1.
Qed.

Lemma accuracy_spec_witness :
  let s := ExerciseState.mk 3 2 0 in
  ExerciseState.accuracy_float s = Ok (S754_finite false 6004799503160661 (-53))
  /\ exists f, ExerciseState.accuracy_float s = Ok f /\ is_finite f = true
               /\ (0 <= float_value f <= 1)%Q.
Proof.
  intros s.
  destruct (accuracy_spec s) as (_ & Hq & _ & Hb & _).
  split.
  - rewrite Hq by discriminate. reflexivity.
  - apply Hb. cbn. lia.
Defined.

(** ** Content catalog *)

Section ContentCatalog.

Context {A : Type}.

(** A draw from a non-empty sequence returns one of its elements and
    moves the generator one step. *)
Lemma choice_elem (seq : list A) (g : Rng) :
  seq <> [] ->
  exists x, choice seq g = (Ok x, mkRng (draws g) (S (cursor g))) /\ x ∈ seq.
Proof.
  intros Hne. destruct seq as [|a seq]; [contradiction|].
  unfold choice, bind, randbelow.
  set (i := (draws g (cursor g) mod length (a :: seq))%nat).
  assert (i < length (a :: seq))%nat as Hi
    by (apply Nat.mod_upper_bound; simpl; lia).
  destruct (lookup_lt_is_Some_2 _ _ Hi) as [x Hx].
  exists x. rewrite Hx. split; [reflexivity|].
  eapply list_elem_of_lookup_2; eassumption.
Qed.

(** Every element of the sequence is the outcome of some generator. *)
Lemma choice_any (seq : list A) (x : A) :
  x ∈ seq -> exists g, fst (choice seq g) = Ok x.
Proof.
  intros Hx. apply list_elem_of_lookup_1 in Hx as [i Hi].
  exists (mkRng (fun _ => i) O).
  destruct seq as [|a seq]; [discriminate|].
  unfold choice, bind, randbelow. cbn [draws cursor].
  rewrite Nat.mod_small by (eapply lookup_lt_Some; eassumption).
  now rewrite Hi.
Qed.

End ContentCatalog.

Lemma VOCABULARY_categories :
  Forall (fun item => VocabularyItem.category item <> []
                      /\ VocabularyItem.category item <> str "all") VOCABULARY.
Proof. repeat constructor; discriminate. Qed.

Lemma filter_category_is (vocabulary : list VocabularyItem.t) (name : pystr)
      (item : VocabularyItem.t) :
  item ∈ List.filter (category_is (Some name)) vocabulary
  <-> item ∈ vocabulary /\ VocabularyItem.category item = name.
Proof.
  rewrite !list_elem_of_In, filter_In. unfold category_is, str_eq.
  now rewrite bool_decide_eq_true.
Qed.

(** C4. [random_vocabulary_item(c)] with [c] absent or ["all"] draws from
    the entire catalog (it is [choice(VOCABULARY)], which returns a catalog
    item, and any catalog item can come out); with [c] a category carried
    by some catalog item it returns an item of category [c]; with [c]
    carried by no item it does not fail and returns a catalog item. *)
Theorem random_vocabulary_item_spec (c : option pystr) (g : Rng) :
  (c = None \/ c = Some (str "all") ->
     random_vocabulary_item c = choice VOCABULARY
     /\ (exists item, fst (random_vocabulary_item c g) = Ok item /\ item ∈ VOCABULARY)
     /\ (forall item, item ∈ VOCABULARY ->
           exists g', fst (random_vocabulary_item c g') = Ok item))
  /\ (forall name, c = Some name ->
        (exists item, item ∈ VOCABULARY /\ VocabularyItem.category item = name) ->
        exists item, fst (random_vocabulary_item c g) = Ok item
                     /\ item ∈ VOCABULARY /\ VocabularyItem.category item = name)
  /\ (forall name, c = Some name ->
        (forall item, item ∈ VOCABULARY -> VocabularyItem.category item <> name) ->
        exists item, fst (random_vocabulary_item c g) = Ok item /\ item ∈ VOCABULARY).
Proof.
  assert (VOCABULARY <> []) as Hne by discriminate.
  split; [|split].
  - intros Hc.
    assert (random_vocabulary_item c = choice VOCABULARY) as E
      by (destruct Hc as [-> | ->]; reflexivity).
    rewrite E. split; [reflexivity | split].
    + destruct (choice_elem VOCABULARY g Hne) as (item & Hrun & Hin).
      exists item. now rewrite Hrun.
    + intros item Hin. now apply choice_any.
  - intros name -> (witness & Hin & Hcat).
    pose proof VOCABULARY_categories as Hall.
    rewrite Forall_forall in Hall. destruct (Hall witness Hin) as [Hn1 Hn2].
    unfold random_vocabulary_item, random_vocabulary_item_from.
    assert (negb (truthy (Some name)) || is_all (Some name) = false) as ->.
    { apply orb_false_iff. split.
      - destruct name; [congruence | reflexivity].
      - unfold is_all, str_eq. apply bool_decide_eq_false. congruence. }
    assert (witness ∈ List.filter (category_is (Some name)) VOCABULARY) as Hw
      by (apply filter_category_is; auto).
    destruct (List.filter (category_is (Some name)) VOCABULARY) as [|a l] eqn:Ef.
    { now apply not_elem_of_nil in Hw. }
    destruct (choice_elem (a :: l) g) as (item & Hrun & Hitem); [discriminate|].
    rewrite <- Ef in Hitem. apply filter_category_is in Hitem as [H1 H2].
    exists item. rewrite Hrun. auto.
  - intros name -> Hnone.
    assert (random_vocabulary_item (Some name) = choice VOCABULARY) as E.
    { unfold random_vocabulary_item, random_vocabulary_item_from.
      destruct (negb (truthy (Some name)) || is_all (Some name)); [reflexivity|].
      destruct (List.filter (category_is (Some name)) VOCABULARY) as [|a l] eqn:Ef;
        [reflexivity|].
      assert (a ∈ List.filter (category_is (Some name)) VOCABULARY) as Ha
        by (rewrite Ef; left).
      apply filter_category_is in Ha as [H1 H2]. now apply Hnone in H1. }
    rewrite E.
    destruct (choice_elem VOCABULARY g Hne) as (item & Hrun & Hin).
    exists item. now rewrite Hrun.
Qed.

Lemma random_vocabulary_item_spec_witness :
  let g := mkRng (fun n => n) 7 in
  (exists item, fst (random_vocabulary_item None g) = Ok item /\ item ∈ VOCABULARY)
  /\ (exists item, fst (random_vocabulary_item (Some (str "animals")) g) = Ok item
                   /\ item ∈ VOCABULARY
                   /\ VocabularyItem.category item = str "animals")
  /\ (exists item, fst (random_vocabulary_item (Some (str "nonexistent-category")) g)
                   = Ok item /\ item ∈ VOCABULARY).
Proof.
  intros g. split; [|split].
  - destruct (random_vocabulary_item_spec None g) as (H & _).
    destruct H as (_ & H & _); [now left | exact H].
  - destruct (random_vocabulary_item_spec (Some (str "animals")) g) as (_ & H & _).
    apply (H (str "animals")); [reflexivity|].
    exists (vocab "chat" "cat" "animals"). split; [|reflexivity].
    apply list_elem_of_lookup_2 with 15%nat. reflexivity.
  - destruct (random_vocabulary_item_spec (Some (str "nonexistent-category")) g)
      as (_ & _ & H).
    apply (H (str "nonexistent-category")); [reflexivity|].
    apply Forall_forall. repeat constructor; discriminate.
Defined.

(** C10. An empty-string category, like an absent one, is handled by the
    first test exactly as ["all"] is: the call is [choice] on the entire
    catalog. This holds for any catalog contents, so the subset of items
    whose category equals the argument plays no part: every catalog item,
    whatever its category, can be drawn. *)
Theorem falsy_category_is_all (vocabulary : list VocabularyItem.t) :
  random_vocabulary_item_from vocabulary (Some (str "")) = choice vocabulary
  /\ random_vocabulary_item_from vocabulary None = choice vocabulary
  /\ random_vocabulary_item_from vocabulary (Some (str "all")) = choice vocabulary
  /\ random_vocabulary_item (Some (str "")) = random_vocabulary_item (Some (str "all"))
  /\ random_vocabulary_item None = random_vocabulary_item (Some (str "all"))
  /\ (forall item, item ∈ vocabulary ->
        (exists g, fst (random_vocabulary_item_from vocabulary (Some (str "")) g) = Ok item)
        /\ (exists g, fst (random_vocabulary_item_from vocabulary None g) = Ok item)).
Proof.
  repeat split; try reflexivity.
  - change (exists g, fst (choice vocabulary g) = Ok item). now apply choice_any.
  - change (exists g, fst (choice vocabulary g) = Ok item). now apply choice_any.
Qed.

Lemma falsy_category_is_all_witness :
  let unlabelled := VocabularyItem.mk (str "oui") (str "yes") (str "") in
  let labelled := VocabularyItem.mk (str "non") (str "no") (str "general") in
  exists g, fst (random_vocabulary_item_from [unlabelled; labelled] (Some (str "")) g)
            = Ok labelled.
Proof.
  intros unlabelled labelled.
  destruct (falsy_category_is_all [unlabelled; labelled]) as (_ & _ & _ & _ & _ & H).
  apply (H labelled). apply list_elem_of_lookup_2 with 1%nat. reflexivity.
Defined.

Lemma random_vocabulary_item_total (c : option pystr) (g : Rng) :
  exists item,
    random_vocabulary_item c g = (Ok item, mkRng (draws g) (S (cursor g)))
    /\ item ∈ VOCABULARY.
Proof.
  unfold random_vocabulary_item, random_vocabulary_item_from.
  destruct (negb (truthy c) || is_all c).
  - apply choice_elem. discriminate.
  - destruct (List.filter (category_is c) VOCABULARY) as [|a l] eqn:Ef.
    + apply choice_elem. discriminate.
    + destruct (choice_elem (a :: l) g) as (item & Hrun & Hin); [discriminate|].
      exists item. split; [assumption|].
      rewrite <- Ef, list_elem_of_In, filter_In in Hin.
      apply list_elem_of_In. tauto.
Qed.

Lemma random_conjugation_pattern_total (g : Rng) :
  exists pattern,
    random_conjugation_pattern g = (Ok pattern, mkRng (draws g) (S (cursor g)))
    /\ pattern ∈ PRESENT_TENSE.
Proof. apply choice_elem. discriminate. Qed.

(** ** Python sequence operations *)

Lemma getitem_nonneg {A} (seq : list A) (i : Z) :
  0 <= i < Z.of_nat (length seq) ->
  exists x, getitem seq i = Ok x /\ seq !! Z.to_nat i = Some x.
Proof.
  intros Hi. unfold getitem.
  destruct (Z.ltb_spec i 0); [lia|].
  destruct (Z.leb_spec 0 i); [|lia].
  destruct (Z.ltb_spec i (Z.of_nat (length seq))); [|lia].
  destruct (lookup_lt_is_Some_2 seq (Z.to_nat i)) as [x Hx]; [lia|].
  exists x. now rewrite Hx.
Qed.

(** An index that selects an element selects the same element once it is
    reduced modulo the length. *)
Lemma getitem_mod {A} (seq : list A) (i : Z) (x : A) :
  getitem seq i = Ok x ->
  getitem seq (i mod Z.of_nat (length seq)) = Ok x.
Proof.
  unfold getitem. set (n := Z.of_nat (length seq)).
  destruct (Z.ltb_spec i 0) as [Hneg|Hpos].
  - destruct (Z.leb_spec 0 (i + n)); [|discriminate].
    destruct (Z.ltb_spec (i + n) n); [|discriminate]. cbn [andb].
    intros Hx.
    replace (i mod n) with (i + n).
    + destruct (Z.ltb_spec (i + n) 0); [lia|].
      destruct (Z.leb_spec 0 (i + n)); [|lia].
      destruct (Z.ltb_spec (i + n) n); [|lia]. exact Hx.
    + apply (Z.mod_unique i n (-1) (i + n)); lia.
  - destruct (Z.leb_spec 0 i); [|lia].
    destruct (Z.ltb_spec i n); [|discriminate]. cbn [andb].
    rewrite Z.mod_small by lia.
    destruct (Z.ltb_spec i 0); [lia|].
    destruct (Z.leb_spec 0 i); [|lia].
    destruct (Z.ltb_spec i n); [|lia]. trivial.
Qed.

Lemma lstrip_split (s : pystr) :
  exists l, s = l ++ lstrip s /\ all_space l.
Proof.
  induction s as [|c s (l & Hs & Hl)].
  - exists []. split; [reflexivity | constructor].
  - simpl. destruct (isspace c) eqn:Ec.
    + exists (c :: l). split; [simpl; congruence | now constructor].
    + exists []. split; [reflexivity | constructor].
Qed.

Lemma lstrip_head (s : pystr) (c : N) :
  head (lstrip s) = Some c -> isspace c = false.
Proof.
  induction s as [|d s IH]; [discriminate|].
  simpl. destruct (isspace d) eqn:Ed; [assumption|].
  simpl. congruence.
Qed.

Lemma rstrip_split (s : pystr) :
  exists r, s = rstrip s ++ r /\ all_space r.
Proof.
  destruct (lstrip_split (reverse s)) as (l & Hs & Hl).
  exists (reverse l). split; [|now apply Forall_reverse].
  unfold rstrip. rewrite <- reverse_app, <- Hs. now rewrite reverse_involutive.
Qed.

(** [strip] removes a whitespace prefix and a whitespace suffix, and what
    remains neither begins nor ends with whitespace. *)
Lemma strip_spec (s : pystr) :
  exists l r, s = l ++ strip s ++ r /\ all_space l /\ all_space r
              /\ trimmed (strip s).
Proof.
  destruct (lstrip_split s) as (l & Hs & Hl).
  destruct (rstrip_split (lstrip s)) as (r & Hu & Hr).
  exists l, r. unfold strip. repeat split; try assumption.
  - now rewrite <- Hu.
  - intros c Hc. apply (lstrip_head s). rewrite Hu.
    destruct (rstrip (lstrip s)); [discriminate | exact Hc].
  - intros c Hc. unfold rstrip in Hc. rewrite last_reverse in Hc.
    now apply lstrip_head in Hc.
Qed.

(** ** Flashcard exercise *)

Section Flashcards.

Import FlashcardExercise.

Variable unicode_lower : pystr -> nat -> N -> pystr.

Lemma next_prompt_run (w : World t) :
  exists item,
    next_prompt w
    = (Ok item, mkWorld (set_current_item (Some item) (self w))
                        (mkRng (draws (random w)) (S (cursor (random w)))))
    /\ item ∈ VOCABULARY.
Proof.
  destruct (random_vocabulary_item_total (category (self w)) (random w))
    as (item & Hrun & Hin).
  exists item. split; [|assumption].
  unfold next_prompt, bind, get, with_random, update_self, modify, ret.
  now rewrite Hrun.
Qed.

Lemma check_answer_shown (answer : pystr) (w : World t) (item : VocabularyItem.t) :
  current_item (self w) = Some item ->
  let correct := str_eq (lower unicode_lower (strip answer))
                        (lower unicode_lower (VocabularyItem.english item)) in
  check_answer unicode_lower answer w
  = (Ok correct,
     mkWorld (set_state (ExerciseState.register_attempt correct (state (self w))) (self w))
             (random w)).
Proof.
  intros Hitem correct.
  unfold check_answer, bind, get, update_self, modify, ret.
  cbv beta. rewrite Hitem. cbv beta iota. now rewrite Hitem.
Qed.

Lemma check_answer_unshown (answer : pystr) (w : World t) :
  current_item (self w) = None ->
  check_answer unicode_lower answer w
  = check_answer unicode_lower answer (snd (next_prompt w)).
Proof.
  intros Hnone. destruct (next_prompt_run w) as (item & Hrun & _).
  rewrite Hrun. cbn [snd].
  match goal with
  | |- _ = check_answer _ _ ?w1 =>
      rewrite (check_answer_shown answer w1 item eq_refl)
  end.
  unfold check_answer, bind, get, update_self, modify, ret.
  cbv beta. rewrite Hnone, Hrun. reflexivity.
Qed.

End Flashcards.

(** ** Conjugation exercise *)

Section Conjugations.

Import ConjugationExercise.

Variable unicode_lower : pystr -> nat -> N -> pystr.

Lemma pronouns_length (pattern : ConjugationPattern.t) :
  Z.of_nat (length (ConjugationPattern.pronouns pattern)) = 6.
Proof. reflexivity. Qed.

Lemma answers_length (pattern : ConjugationPattern.t) :
  Z.of_nat (length (ConjugationPattern.answers pattern)) = 6.
Proof. reflexivity. Qed.

Lemma conjugation_next_prompt_run (w : World t) :
  exists pattern,
    next_prompt w
    = (Ok (ConjugationPattern.infinitive pattern, str "je"),
       mkWorld (mk (state (self w)) (Some pattern) 0)
               (mkRng (draws (random w)) (S (cursor (random w)))))
    /\ pattern ∈ PRESENT_TENSE.
Proof.
  destruct (random_conjugation_pattern_total (random w)) as (pattern & Hrun & Hin).
  exists pattern. split; [|assumption].
  unfold next_prompt, bind, get, with_random, update_self, modify, ret, lift_result.
  rewrite Hrun. reflexivity.
Qed.

Lemma cycle_prompt_run (w : World t) (pattern : ConjugationPattern.t) :
  current_pattern (self w) = Some pattern ->
  let i := (current_index (self w) + 1) mod 6 in
  exists label,
    getitem (ConjugationPattern.pronouns pattern) i = Ok label
    /\ cycle_prompt w
       = (Ok (ConjugationPattern.infinitive pattern, label),
          mkWorld (set_current_index i (self w)) (random w)).
Proof.
  intros Hp i.
  destruct (getitem_nonneg (ConjugationPattern.pronouns pattern) i)
    as (label & Hlabel & _).
  { rewrite pronouns_length. apply Z.mod_pos_bound. lia. }
  exists label. split; [assumption|].
  unfold cycle_prompt, bind, get, update_self, modify, ret, lift_result, py_mod.
  cbv beta. rewrite Hp, pronouns_length.
  cbn [Z.eqb self current_index set_current_index]. fold i.
  now rewrite Hlabel.
Qed.

Lemma conjugation_check_answer_shown (answer : pystr) (w : World t)
      (pattern : ConjugationPattern.t) (expected : pystr) :
  current_pattern (self w) = Some pattern ->
  getitem (ConjugationPattern.answers pattern) (current_index (self w)) = Ok expected ->
  let correct := str_eq (lower unicode_lower (strip answer))
                        (lower unicode_lower expected) in
  check_answer unicode_lower answer w
  = (Ok correct,
     mkWorld (set_state (ExerciseState.register_attempt correct (state (self w))) (self w))
             (random w)).
Proof.
  intros Hp Hexp correct.
  unfold check_answer, bind, get, update_self, modify, ret, lift_result.
  cbv beta. rewrite Hp. cbv beta iota. rewrite Hp, Hexp. reflexivity.
Qed.

Lemma conjugation_check_answer_raises (answer : pystr) (w : World t)
      (pattern : ConjugationPattern.t) (e : exn) :
  current_pattern (self w) = Some pattern ->
  getitem (ConjugationPattern.answers pattern) (current_index (self w)) = Raise e ->
  check_answer unicode_lower answer w = (Raise e, w).
Proof.
  intros Hp Hexp.
  unfold check_answer, bind, get, update_self, modify, ret, lift_result.
  cbv beta. rewrite Hp. cbv beta iota. rewrite Hp, Hexp. reflexivity.
Qed.

Lemma conjugation_check_answer_unshown (answer : pystr) (w : World t) :
  current_pattern (self w) = None ->
  check_answer unicode_lower answer w
  = check_answer unicode_lower answer (snd (next_prompt w)).
Proof.
  intros Hnone. destruct (conjugation_next_prompt_run w) as (pattern & Hrun & _).
  rewrite Hrun. cbn [snd].
  match goal with
  | |- _ = check_answer _ _ ?w1 =>
      rewrite (conjugation_check_answer_shown answer w1 pattern
                 (ConjugationPattern.je pattern) eq_refl eq_refl)
  end.
  unfold check_answer, bind, get, update_self, modify, ret, lift_result.
  cbv beta. rewrite Hnone, Hrun. reflexivity.
Qed.

Lemma cycle_times_run (n : nat) (w : World t) (pattern : ConjugationPattern.t) :
  current_pattern (self w) = Some pattern ->
  cycle_times (S n) w
  = (Ok tt,
     mkWorld (set_current_index ((current_index (self w) + Z.of_nat (S n)) mod 6) (self w))
             (random w)).
Proof.
  revert w. induction n as [|n IH]; intros w Hp.
  - destruct (cycle_prompt_run w pattern Hp) as (label & _ & Hrun).
    unfold cycle_times, bind. rewrite Hrun. reflexivity.
  - destruct (cycle_prompt_run w pattern Hp) as (label & _ & Hrun).
    change (cycle_times (S (S n))) with (cycle_prompt ;;; cycle_times (S n)).
    unfold bind at 1. rewrite Hrun, IH by exact Hp.
    cbn [self random current_index set_current_index state current_pattern].
    rewrite Zplus_mod_idemp_l.
    replace (current_index (self w) + 1 + Z.of_nat (S n))
      with (current_index (self w) + Z.of_nat (S (S n))) by lia.
    reflexivity.
Qed.

End Conjugations.

(** ** Answer checking *)

Section AnswerChecking.

Variable unicode_lower : pystr -> nat -> N -> pystr.

Lemma str_eq_judged (submission target : pystr) :
  str_eq (lower unicode_lower (strip submission)) (lower unicode_lower target) = true
  <-> judged_correct unicode_lower submission target.
Proof. unfold str_eq, judged_correct. apply bool_decide_eq_true. Qed.

Lemma register_attempt_recorded (correct : bool) (s : ExerciseState.t) :
  ExerciseState.register_attempt correct s = recorded correct s.
Proof. now destruct correct. Qed.

(** C2. With an item displayed, [FlashcardExercise.check_answer] succeeds
    and returns [true] exactly when the submission, stripped of the
    whitespace around it and lower-cased, equals the lower-cased English
    translation of the item; ["  Hello  "] is correct for ["hello"].
    [ConjugationExercise.check_answer] applies the same comparison to the
    form at the active slot. In both, the exercise afterwards is the one
    before with the returned boolean recorded in its session state: the
    counters are those that [register_attempt] of that boolean gives, one
    more attempt, and one more correct attempt and a longer streak or a
    streak of 0. [strip] removes exactly a whitespace prefix and a
    whitespace suffix. *)
Theorem check_answer_policy :
  (forall answer w item,
      FlashcardExercise.current_item (self w) = Some item ->
      exists correct : bool,
        FlashcardExercise.check_answer unicode_lower answer w
        = (Ok correct,
           mkWorld (FlashcardExercise.mk
                      (FlashcardExercise.category (self w))
                      (ExerciseState.mk
                         (ExerciseState.total_attempts (FlashcardExercise.state (self w)) + 1)
                         (if correct
                          then ExerciseState.correct_attempts
                                 (FlashcardExercise.state (self w)) + 1
                          else ExerciseState.correct_attempts
                                 (FlashcardExercise.state (self w)))
                         (if correct
                          then ExerciseState.current_streak
                                 (FlashcardExercise.state (self w)) + 1
                          else 0))
                      (Some item))
                   (random w))
        /\ FlashcardExercise.state
             (self (snd (FlashcardExercise.check_answer unicode_lower answer w)))
           = ExerciseState.register_attempt correct (FlashcardExercise.state (self w))
        /\ (correct = true
            <-> judged_correct unicode_lower answer (VocabularyItem.english item)))
  /\ (forall w item,
        FlashcardExercise.current_item (self w) = Some item ->
        VocabularyItem.english item = str "hello" ->
        FlashcardExercise.check_answer unicode_lower (str "  Hello  ") w
        = (Ok true,
           mkWorld (FlashcardExercise.mk
                      (FlashcardExercise.category (self w))
                      (ExerciseState.mk
                         (ExerciseState.total_attempts (FlashcardExercise.state (self w)) + 1)
                         (ExerciseState.correct_attempts (FlashcardExercise.state (self w)) + 1)
                         (ExerciseState.current_streak (FlashcardExercise.state (self w)) + 1))
                      (Some item))
                   (random w)))
  /\ (forall answer w pattern expected,
        ConjugationExercise.current_pattern (self w) = Some pattern ->
        getitem (ConjugationPattern.answers pattern)
                (ConjugationExercise.current_index (self w)) = Ok expected ->
        exists correct : bool,
          ConjugationExercise.check_answer unicode_lower answer w
          = (Ok correct,
             mkWorld (ConjugationExercise.mk
                        (ExerciseState.mk
                           (ExerciseState.total_attempts
                              (ConjugationExercise.state (self w)) + 1)
                           (if correct
                            then ExerciseState.correct_attempts
                                   (ConjugationExercise.state (self w)) + 1
                            else ExerciseState.correct_attempts
                                   (ConjugationExercise.state (self w)))
                           (if correct
                            then ExerciseState.current_streak
                                   (ConjugationExercise.state (self w)) + 1
                            else 0))
                        (Some pattern)
                        (ConjugationExercise.current_index (self w)))
                     (random w))
          /\ ConjugationExercise.state
               (self (snd (ConjugationExercise.check_answer unicode_lower answer w)))
             = ExerciseState.register_attempt correct (ConjugationExercise.state (self w))
          /\ (correct = true <-> judged_correct unicode_lower answer expected))
  /\ (forall w pattern,
        ConjugationExercise.current_pattern (self w) = Some pattern ->
        slot_valid (self w) ->
        exists expected,
          ConjugationPattern.answers pattern
            !! Z.to_nat (ConjugationExercise.current_index (self w)) = Some expected
          /\ getitem (ConjugationPattern.answers pattern)
                     (ConjugationExercise.current_index (self w)) = Ok expected)
  /\ (forall answer,
        exists l r, answer = l ++ strip answer ++ r
                    /\ all_space l /\ all_space r /\ trimmed (strip answer)).
Proof.
  assert (forall answer w item,
             FlashcardExercise.current_item (self w) = Some item ->
             FlashcardExercise.check_answer unicode_lower answer w
             = (Ok (str_eq (lower unicode_lower (strip answer))
                           (lower unicode_lower (VocabularyItem.english item))),
                mkWorld (FlashcardExercise.mk
                           (FlashcardExercise.category (self w))
                           (recorded (str_eq (lower unicode_lower (strip answer))
                                             (lower unicode_lower (VocabularyItem.english item)))
                                     (FlashcardExercise.state (self w)))
                           (Some item))
                        (random w))) as Hflash.
  { intros answer w item Hitem.
    rewrite (check_answer_shown unicode_lower answer w item Hitem).
    unfold FlashcardExercise.set_state.
    now rewrite Hitem, register_attempt_recorded. }
  assert (forall answer w pattern expected,
             ConjugationExercise.current_pattern (self w) = Some pattern ->
             getitem (ConjugationPattern.answers pattern)
                     (ConjugationExercise.current_index (self w)) = Ok expected ->
             ConjugationExercise.check_answer unicode_lower answer w
             = (Ok (str_eq (lower unicode_lower (strip answer))
                           (lower unicode_lower expected)),
                mkWorld (ConjugationExercise.mk
                           (recorded (str_eq (lower unicode_lower (strip answer))
                                             (lower unicode_lower expected))
                                     (ConjugationExercise.state (self w)))
                           (Some pattern)
                           (ConjugationExercise.current_index (self w)))
                        (random w))) as Hconj.
  { intros answer w pattern expected Hp Hexp.
    rewrite (conjugation_check_answer_shown unicode_lower answer w pattern expected
               Hp Hexp).
    unfold ConjugationExercise.set_state.
    now rewrite Hp, register_attempt_recorded. }
  split; [|split; [|split; [|split]]].
  - intros answer w item Hitem. eexists. split; [|split].
    + exact (Hflash answer w item Hitem).
    + rewrite (Hflash answer w item Hitem). cbn [snd self FlashcardExercise.state].
      symmetry. apply register_attempt_recorded.
    + apply str_eq_judged.
  - intros w item Hitem Heng.
    rewrite (Hflash _ w item Hitem), Heng. reflexivity.
  - intros answer w pattern expected Hp Hexp. eexists. split; [|split].
    + exact (Hconj answer w pattern expected Hp Hexp).
    + rewrite (Hconj answer w pattern expected Hp Hexp).
      cbn [snd self ConjugationExercise.state].
      symmetry. apply register_attempt_recorded.
    + apply str_eq_judged.
  - intros w pattern Hp Hslot.
    destruct (getitem_nonneg (ConjugationPattern.answers pattern)
                (ConjugationExercise.current_index (self w))) as (expected & H1 & H2).
    { rewrite answers_length. exact Hslot. }
    exists expected. now split.
  - apply strip_spec.
Qed.

(** C6. With no item (respectively no pattern) displayed, [check_answer]
    is [next_prompt] followed by [check_answer]: it does not fail, the
    item it leaves displayed is the catalog item [next_prompt] drew
    (respectively a pattern of [PRESENT_TENSE], with the active slot at the
    position of ["je"], 0), and the answer is compared with that target. *)
Theorem check_answer_prompts_first :
  (forall answer w,
      FlashcardExercise.current_item (self w) = None ->
      FlashcardExercise.check_answer unicode_lower answer w
      = FlashcardExercise.check_answer unicode_lower answer
          (snd (FlashcardExercise.next_prompt w))
      /\ exists item correct w',
          FlashcardExercise.check_answer unicode_lower answer w = (Ok correct, w')
          /\ fst (FlashcardExercise.next_prompt w) = Ok item
          /\ item ∈ VOCABULARY
          /\ FlashcardExercise.current_item (self w') = Some item
          /\ (correct = true
              <-> judged_correct unicode_lower answer (VocabularyItem.english item)))
  /\ (forall answer w,
        ConjugationExercise.current_pattern (self w) = None ->
        ConjugationExercise.check_answer unicode_lower answer w
        = ConjugationExercise.check_answer unicode_lower answer
            (snd (ConjugationExercise.next_prompt w))
        /\ exists pattern correct w',
            ConjugationExercise.check_answer unicode_lower answer w = (Ok correct, w')
            /\ pattern ∈ PRESENT_TENSE
            /\ ConjugationExercise.current_pattern (self w') = Some pattern
            /\ ConjugationExercise.current_index (self w') = 0
            /\ index (str "je") (ConjugationPattern.pronouns pattern) = Ok 0
            /\ (correct = true
                <-> judged_correct unicode_lower answer (ConjugationPattern.je pattern))).
Proof.
  split.
  - intros answer w Hnone. split; [now apply check_answer_unshown|].
    rewrite (check_answer_unshown unicode_lower answer w Hnone).
    destruct (next_prompt_run w) as (item & Hrun & Hin). rewrite Hrun. cbn [fst snd].
    match goal with
    | |- context [FlashcardExercise.check_answer _ _ ?w1] =>
        rewrite (check_answer_shown unicode_lower answer w1 item eq_refl)
    end.
    exists item. do 2 eexists. split; [reflexivity|].
    repeat split; try assumption; apply str_eq_judged.
  - intros answer w Hnone. split; [now apply conjugation_check_answer_unshown|].
    rewrite (conjugation_check_answer_unshown unicode_lower answer w Hnone).
    destruct (conjugation_next_prompt_run w) as (pattern & Hrun & Hin).
    rewrite Hrun. cbn [snd].
    match goal with
    | |- context [ConjugationExercise.check_answer _ _ ?w1] =>
        rewrite (conjugation_check_answer_shown unicode_lower answer w1 pattern
                   (ConjugationPattern.je pattern) eq_refl eq_refl)
    end.
    exists pattern. do 2 eexists. split; [reflexivity|].
    repeat split; try assumption; apply str_eq_judged.
Qed.

(** C7. With an item (respectively a pattern) displayed, [check_answer]
    changes nothing but the session state: the displayed item and the
    category filter (respectively the pattern and the active slot index)
    are the same afterwards, and the random generator has not been used,
    so no new prompt has been drawn. *)
Theorem check_answer_frame :
  (forall answer w,
      FlashcardExercise.current_item (self w) <> None ->
      let w' := snd (FlashcardExercise.check_answer unicode_lower answer w) in
      FlashcardExercise.current_item (self w') = FlashcardExercise.current_item (self w)
      /\ FlashcardExercise.category (self w') = FlashcardExercise.category (self w)
      /\ random w' = random w
      /\ w' = mkWorld (FlashcardExercise.set_state
                         (FlashcardExercise.state (self w')) (self w)) (random w))
  /\ (forall answer w,
        ConjugationExercise.current_pattern (self w) <> None ->
        let w' := snd (ConjugationExercise.check_answer unicode_lower answer w) in
        ConjugationExercise.current_pattern (self w')
        = ConjugationExercise.current_pattern (self w)
        /\ ConjugationExercise.current_index (self w')
           = ConjugationExercise.current_index (self w)
        /\ random w' = random w
        /\ w' = mkWorld (ConjugationExercise.set_state
                           (ConjugationExercise.state (self w')) (self w)) (random w)).
Proof.
  split.
  - intros answer w Hshown w'.
    destruct (FlashcardExercise.current_item (self w)) as [item|] eqn:Hitem;
      [|contradiction].
    subst w'. rewrite (check_answer_shown unicode_lower answer w item Hitem).
    cbn. now rewrite Hitem.
  - intros answer w Hshown w'.
    destruct (ConjugationExercise.current_pattern (self w)) as [pattern|] eqn:Hp;
      [|contradiction].
    subst w'.
    destruct (getitem (ConjugationPattern.answers pattern)
                (ConjugationExercise.current_index (self w))) as [expected|e] eqn:Hexp.
    + rewrite (conjugation_check_answer_shown unicode_lower answer w pattern expected
                 Hp Hexp).
      cbn. now rewrite Hp.
    + rewrite (conjugation_check_answer_raises unicode_lower answer w pattern e Hp Hexp).
      cbn. rewrite Hp. repeat split.
      destruct w as [[s p i] g]. reflexivity.
Qed.

End AnswerChecking.

Lemma cycle_prompt_unshown (w : World ConjugationExercise.t) :
  ConjugationExercise.current_pattern (self w) = None ->
  ConjugationExercise.cycle_prompt w = ConjugationExercise.next_prompt w.
Proof.
  intros Hnone. unfold ConjugationExercise.cycle_prompt, bind, get.
  cbv beta. now rewrite Hnone.
Qed.

(** Every call made on an exercise whose slot is valid succeeds and leaves
    the slot valid. *)
Lemma perform_slot_valid unicode_lower (call : conjugation_call)
      (w : World ConjugationExercise.t) :
  slot_valid (self w) ->
  exists w', perform unicode_lower call w = (Ok tt, w') /\ slot_valid (self w').
Proof.
  intros Hslot.
  assert (exists w', (ConjugationExercise.next_prompt ;;; ret tt) w = (Ok tt, w')
                     /\ slot_valid (self w')) as Hnext.
  { destruct (conjugation_next_prompt_run w) as (p & Hrun & _).
    eexists. unfold bind. rewrite Hrun. split; [reflexivity|].
    unfold slot_valid. simpl. lia. }
  destruct call as [| |answer]; cbn [perform].
  - exact Hnext.
  - destruct (ConjugationExercise.current_pattern (self w)) as [p|] eqn:Hp.
    + destruct (cycle_prompt_run w p Hp) as (label & _ & Hrun).
      eexists. unfold bind. rewrite Hrun. split; [reflexivity|].
      unfold slot_valid. cbn. apply Z.mod_pos_bound. lia.
    + unfold bind at 1. rewrite (cycle_prompt_unshown w Hp). exact Hnext.
  - destruct (ConjugationExercise.current_pattern (self w)) as [p|] eqn:Hp.
    + destruct (getitem_nonneg (ConjugationPattern.answers p)
                  (ConjugationExercise.current_index (self w)))
        as (expected & Hexp & _); [now rewrite answers_length|].
      eexists. unfold bind.
      rewrite (conjugation_check_answer_shown unicode_lower answer w p expected Hp Hexp).
      split; [reflexivity | exact Hslot].
    + destruct (conjugation_next_prompt_run w) as (p & Hrun & _).
      eexists. unfold bind.
      rewrite (conjugation_check_answer_unshown unicode_lower answer w Hp), Hrun.
      cbn [snd].
      match goal with
      | |- context [ConjugationExercise.check_answer _ _ ?w1] =>
          rewrite (conjugation_check_answer_shown unicode_lower answer w1 p
                     (ConjugationPattern.je p) eq_refl eq_refl)
      end.
      split; [reflexivity|]. unfold slot_valid. simpl. lia.
Qed.

Lemma conjugation_session_slot_valid unicode_lower
      (calls : list conjugation_call) (g : Rng) :
  slot_valid (self (conjugation_session unicode_lower calls g)).
Proof.
  induction calls as [|call calls IH] using rev_ind.
  - unfold slot_valid. simpl. lia.
  - unfold conjugation_session in *. rewrite fold_left_app. cbn [fold_left].
    destruct (perform_slot_valid unicode_lower call _ IH) as (w' & Hrun & Hslot).
    now rewrite Hrun.
Qed.

(** C5. With a pattern displayed, [cycle_prompt] keeps the pattern, sets
    the active slot index to the old index plus 1 modulo 6 and returns the
    infinitive with the pronoun label at the new index. When the active
    slot is one of the six positions, six consecutive calls all succeed and
    leave the exercise exactly as it was, so the slot index, the pronoun and
    the expected answer are those from before the calls; for any index, six
    calls leave the index reduced modulo 6, and the pronoun and the expected
    answer, where they existed, are the same again. The active slot
    is one of the six positions in every exercise that calls of
    [next_prompt], [cycle_prompt] and [check_answer] produce from a new
    one. After [next_prompt] the active slot is the position of ["je"],
    which is 0. *)
Theorem cycle_prompt_period :
  (forall w pattern,
      ConjugationExercise.current_pattern (self w) = Some pattern ->
      let i := (ConjugationExercise.current_index (self w) + 1) mod 6 in
      0 <= i < 6
      /\ exists label,
          ConjugationPattern.pronouns pattern !! Z.to_nat i = Some label
          /\ getitem (ConjugationPattern.pronouns pattern) i = Ok label
          /\ ConjugationExercise.cycle_prompt w
             = (Ok (ConjugationPattern.infinitive pattern, label),
                mkWorld (ConjugationExercise.set_current_index i (self w)) (random w)))
  /\ (forall w pattern,
        ConjugationExercise.current_pattern (self w) = Some pattern ->
        slot_valid (self w) ->
        cycle_times 6 w = (Ok tt, w))
  /\ (forall w pattern,
        ConjugationExercise.current_pattern (self w) = Some pattern ->
        slot_valid (self w) ->
        let w6 := snd (cycle_times 6 w) in
        ConjugationExercise.current_pattern (self w6) = Some pattern
        /\ ConjugationExercise.current_index (self w6)
           = ConjugationExercise.current_index (self w)
        /\ getitem (ConjugationPattern.pronouns pattern)
                   (ConjugationExercise.current_index (self w6))
           = getitem (ConjugationPattern.pronouns pattern)
                     (ConjugationExercise.current_index (self w))
        /\ getitem (ConjugationPattern.answers pattern)
                   (ConjugationExercise.current_index (self w6))
           = getitem (ConjugationPattern.answers pattern)
                     (ConjugationExercise.current_index (self w)))
  /\ (forall w pattern,
        ConjugationExercise.current_pattern (self w) = Some pattern ->
        cycle_times 6 w
        = (Ok tt,
           mkWorld (ConjugationExercise.set_current_index
                      (ConjugationExercise.current_index (self w) mod 6) (self w))
                   (random w))
        /\ (forall label,
              getitem (ConjugationPattern.pronouns pattern)
                      (ConjugationExercise.current_index (self w)) = Ok label ->
              getitem (ConjugationPattern.pronouns pattern)
                      (ConjugationExercise.current_index (self (snd (cycle_times 6 w))))
              = Ok label)
        /\ (forall expected,
              getitem (ConjugationPattern.answers pattern)
                      (ConjugationExercise.current_index (self w)) = Ok expected ->
              getitem (ConjugationPattern.answers pattern)
                      (ConjugationExercise.current_index (self (snd (cycle_times 6 w))))
              = Ok expected))
  /\ (forall w,
        exists pattern w',
          ConjugationExercise.next_prompt w
          = (Ok (ConjugationPattern.infinitive pattern, str "je"), w')
          /\ pattern ∈ PRESENT_TENSE
          /\ ConjugationExercise.current_pattern (self w') = Some pattern
          /\ index (str "je") (ConjugationPattern.pronouns pattern) = Ok 0
          /\ ConjugationExercise.current_index (self w') = 0)
  /\ (forall unicode_lower calls g,
        slot_valid (self (conjugation_session unicode_lower calls g))).
Proof.
  assert (forall w pattern,
             ConjugationExercise.current_pattern (self w) = Some pattern ->
             cycle_times 6 w
             = (Ok tt,
                mkWorld (ConjugationExercise.set_current_index
                           (ConjugationExercise.current_index (self w) mod 6) (self w))
                        (random w))) as Hany.
  { intros w pattern Hp. rewrite (cycle_times_run 5 w pattern Hp).
    change (Z.of_nat 6) with (1 * 6). now rewrite Z.mod_add by lia. }
  assert (forall w pattern,
             ConjugationExercise.current_pattern (self w) = Some pattern ->
             slot_valid (self w) -> cycle_times 6 w = (Ok tt, w)) as Hsix.
  { intros w pattern Hp Hslot. unfold slot_valid in Hslot.
    rewrite (Hany w pattern Hp), Z.mod_small by exact Hslot.
    destruct w as [[s p i] g]. reflexivity. }
  split; [|split; [|split; [|split; [|split]]]].
  - intros w pattern Hp i.
    assert (0 <= i < 6) as Hi by (apply Z.mod_pos_bound; lia).
    split; [exact Hi|].
    destruct (cycle_prompt_run w pattern Hp) as (label & Hlabel & Hrun).
    destruct (getitem_nonneg (ConjugationPattern.pronouns pattern) i)
      as (label' & Hget & Hlook); [now rewrite pronouns_length|].
    fold i in Hlabel. rewrite Hlabel in Hget. injection Hget as <-.
    exists label. auto.
  - exact Hsix.
  - intros w pattern Hp Hslot w6. subst w6.
    rewrite (Hsix w pattern Hp Hslot). cbn [snd]. auto.
  - intros w pattern Hp. split; [exact (Hany w pattern Hp)|].
    rewrite (Hany w pattern Hp).
    cbn [snd self ConjugationExercise.current_index
         ConjugationExercise.set_current_index].
    split; intros x Hx.
    + rewrite <- (pronouns_length pattern). now apply getitem_mod.
    + rewrite <- (answers_length pattern). now apply getitem_mod.
  - intros w. destruct (conjugation_next_prompt_run w) as (pattern & Hrun & Hin).
    exists pattern. eexists. split; [exact Hrun|]. auto.
  - apply conjugation_session_slot_valid.
Qed.

(** ** Exercise registry *)

Section Registry.

Context {V : Type}.

Lemma dict_get_set_eq (k : pystr) (v : V) (d : list (pystr * V)) :
  dict_get k (dict_set k v d) = Some v.
Proof.
  induction d as [|[k' v'] d IH]; simpl.
  - unfold str_eq. now rewrite bool_decide_eq_true_2.
  - destruct (str_eq k' k) eqn:E; simpl; now rewrite E.
Qed.

Lemma dict_get_set_ne (k k' : pystr) (v : V) (d : list (pystr * V)) :
  k <> k' -> dict_get k' (dict_set k v d) = dict_get k' d.
Proof.
  intros Hne. induction d as [|[k0 v0] d IH]; simpl.
  - unfold str_eq. now rewrite bool_decide_eq_false_2.
  - destruct (str_eq k0 k) eqn:E; simpl.
    + apply bool_decide_eq_true in E. subst k0.
      unfold str_eq. now rewrite !bool_decide_eq_false_2.
    + now rewrite IH.
Qed.

Lemma dict_keys_set (k : pystr) (v : V) (d : list (pystr * V)) :
  dict_keys (dict_set k v d)
  = if bool_decide (k ∈ dict_keys d) then dict_keys d else dict_keys d ++ [k].
Proof.
  induction d as [|[k' v'] d IH]; simpl.
  - reflexivity.
  - destruct (str_eq k' k) eqn:E; simpl.
    + apply bool_decide_eq_true in E. subst k'.
      rewrite bool_decide_eq_true_2; [reflexivity | left].
    + apply bool_decide_eq_false in E.
      fold (dict_keys (dict_set k v d)). fold (dict_keys d). rewrite IH.
      destruct (decide (k ∈ dict_keys d)) as [Hin|Hnin].
      * rewrite !bool_decide_eq_true_2; [reflexivity | now right | assumption].
      * rewrite !bool_decide_eq_false_2; [reflexivity | | assumption].
        rewrite elem_of_cons. intros [->|?]; [now apply E | contradiction].
Qed.

End Registry.

Lemma registered_snoc calls name f :
  registered (calls ++ [(name, f)])
  = ExerciseRegistry.register name f (registered calls).
Proof. unfold registered. now rewrite fold_left_app. Qed.

Lemma distinct_snoc (names : list pystr) (n : pystr) :
  distinct (names ++ [n])
  = if bool_decide (n ∈ distinct names) then distinct names else distinct names ++ [n].
Proof. unfold distinct. now rewrite fold_left_app. Qed.

Lemma latest_snoc name calls n f :
  latest name (calls ++ [(n, f)])
  = if str_eq n name then Some f else latest name calls.
Proof. unfold latest. now rewrite fold_left_app. Qed.

Lemma distinct_elem (names : list pystr) (n : pystr) :
  n ∈ distinct names <-> n ∈ names.
Proof.
  induction names as [|m names IH] using rev_ind.
  - reflexivity.
  - rewrite distinct_snoc, elem_of_app, list_elem_of_singleton, <- IH.
    case_bool_decide as Hm; [|rewrite elem_of_app, list_elem_of_singleton; tauto].
    split; [tauto | intros [?| ->]; assumption].
Qed.

Lemma distinct_NoDup (names : list pystr) : NoDup (distinct names).
Proof.
  induction names as [|m names IH] using rev_ind.
  - constructor.
  - rewrite distinct_snoc. case_bool_decide as Hm; [assumption|].
    apply NoDup_app. repeat split; [assumption | | apply NoDup_singleton].
    intros x Hx ->%list_elem_of_singleton. contradiction.
Qed.

Lemma registered_names calls :
  ExerciseRegistry.names (registered calls) = distinct (map fst calls).
Proof.
  induction calls as [|[name f] calls IH] using rev_ind.
  - reflexivity.
  - rewrite registered_snoc, map_app. cbn [map fst]. rewrite distinct_snoc, <- IH.
    unfold ExerciseRegistry.names, ExerciseRegistry.register.
    cbn [ExerciseRegistry._creators]. apply dict_keys_set.
Qed.

Lemma registered_get name calls :
  dict_get name (ExerciseRegistry._creators (registered calls)) = latest name calls.
Proof.
  induction calls as [|[n f] calls IH] using rev_ind.
  - reflexivity.
  - rewrite registered_snoc, latest_snoc. simpl.
    destruct (str_eq n name) eqn:E.
    + apply bool_decide_eq_true in E. subst n. apply dict_get_set_eq.
    + apply bool_decide_eq_false in E. now rewrite dict_get_set_ne.
Qed.

Lemma latest_None name calls :
  latest name calls = None <-> name ∉ map fst calls.
Proof.
  induction calls as [|[n f] calls IH] using rev_ind.
  - split; [intros _; apply not_elem_of_nil | reflexivity].
  - rewrite latest_snoc, map_app, elem_of_app. cbn [map fst].
    rewrite list_elem_of_singleton. unfold str_eq. case_bool_decide as E.
    + split; [discriminate | intros H; exfalso; apply H; now right].
    + rewrite IH. split; [intros H [?| ->]; [tauto | now apply E] | tauto].
Qed.

Lemma new_fresh (o : Exercise) (h : gmap positive Exercise) :
  exists l, new o h = (Ok l, <[l := o]> h) /\ h !! l = None.
Proof.
  exists (fresh (dom h)). split; [reflexivity|].
  apply not_elem_of_dom. apply is_fresh.
Qed.

(** C8. For a registry built by [register] calls: [create(name)] raises
    [KeyError] and touches nothing when [name] is not registered; when it
    is, [create] runs the factory last registered under [name], and for a
    factory that is a class constructor the result is a new object in its
    initial state at a location no existing object occupies. [names()] is
    the registered names, each once, in order of first registration; it is
    a value, so traversing it does not use it up. The module-level
    registry [EXERCISES] holds ["Flashcards"] and ["Conjugation"]. *)
Theorem registry_create_names
        (calls : list (pystr * ExerciseRegistry.factory)) (name : pystr)
        (h : gmap positive Exercise) :
  let r := registered calls in
  (name ∉ ExerciseRegistry.names r ->
     ExerciseRegistry.create name r h
     = (Raise (KeyError (str "Unknown exercise: " ++ name)), h))
  /\ (name ∈ ExerciseRegistry.names r ->
        exists f, latest name calls = Some f
                  /\ ExerciseRegistry.create name r h = f h)
  /\ (forall o, latest name calls = Some (new o) ->
        exists l, ExerciseRegistry.create name r h = (Ok l, <[l := o]> h)
                  /\ h !! l = None)
  /\ ExerciseRegistry.names r = distinct (map fst calls)
  /\ NoDup (ExerciseRegistry.names r)
  /\ (forall n, n ∈ ExerciseRegistry.names r <-> n ∈ map fst calls)
  /\ EXERCISES = registered [(str "Flashcards", FlashcardExercise_new);
                             (str "Conjugation", ConjugationExercise_new)]
  /\ ExerciseRegistry.names EXERCISES = [str "Flashcards"; str "Conjugation"].
Proof.
  intros r.
  assert (forall n, n ∈ ExerciseRegistry.names r <-> n ∈ map fst calls) as Hnames.
  { intros n. subst r. rewrite registered_names. apply distinct_elem. }
  assert (forall f, latest name calls = Some f ->
                    ExerciseRegistry.create name r h = f h) as Hcreate.
  { intros f Hf. unfold ExerciseRegistry.create. subst r.
    now rewrite registered_get, Hf. }
  repeat split.
  - intros Hnot. rewrite Hnames, <- latest_None in Hnot.
    unfold ExerciseRegistry.create. subst r. now rewrite registered_get, Hnot.
  - intros Hin. destruct (latest name calls) as [f|] eqn:Hf.
    + exists f. split; [reflexivity | now apply Hcreate].
    + apply latest_None in Hf. now apply Hnames in Hin.
  - intros o Ho. rewrite (Hcreate _ Ho). apply new_fresh.
  - apply registered_names.
  - subst r. rewrite registered_names. apply distinct_NoDup.
  - apply Hnames.
  - apply Hnames.
Qed.

Lemma registry_create_names_witness :
  let calls := [(str "Flashcards", FlashcardExercise_new);
                (str "Conjugation", ConjugationExercise_new)] in
  let h : gmap positive Exercise := {[ 1%positive := Conjugation ConjugationExercise.init ]} in
  (exists l, ExerciseRegistry.create (str "Flashcards") EXERCISES h
             = (Ok l, <[l := Flashcard FlashcardExercise.init]> h)
             /\ h !! l = None)
  /\ ExerciseRegistry.create (str "Unknown") EXERCISES h
     = (Raise (KeyError (str "Unknown exercise: Unknown")), h)
  /\ ExerciseRegistry.names
       (registered (calls ++ [(str "Flashcards", ConjugationExercise_new)]))
     = [str "Flashcards"; str "Conjugation"].
Proof.
  intros calls h. split; [|split].
  - destruct (registry_create_names calls (str "Flashcards") h)
      as (_ & _ & H & _).
    apply (H (Flashcard FlashcardExercise.init)). reflexivity.
  - destruct (registry_create_names calls (str "Unknown") h) as (H & _).
    apply H. intros Hin.
    apply list_elem_of_In in Hin. simpl in Hin.
    destruct Hin as [Hin | [Hin | []]]; discriminate Hin.
  - destruct (registry_create_names
                (calls ++ [(str "Flashcards", ConjugationExercise_new)])
                (str "Flashcards") h) as (_ & _ & _ & H & _).
    rewrite H. reflexivity.
Defined.

(** ** The properties on concrete sessions *)

Lemma check_answer_policy_witness :
  let unicode_lower : pystr -> nat -> N -> pystr := fun _ _ c => [c] in
  let g := mkRng (fun n => n) O in
  let bonjour := vocab "bonjour" "hello" "greetings" in
  let parler := pattern "parler" "parle" "parles" "parle" "parlons" "parlez" "parlent" in
  FlashcardExercise.check_answer unicode_lower (str "  Hello  ")
    (mkWorld (FlashcardExercise.mk None (ExerciseState.mk 2 1 0) (Some bonjour)) g)
  = (Ok true,
     mkWorld (FlashcardExercise.mk None (ExerciseState.mk 3 2 1) (Some bonjour)) g)
  /\ FlashcardExercise.check_answer unicode_lower (str "goodbye")
       (mkWorld (FlashcardExercise.mk None (ExerciseState.mk 2 1 1) (Some bonjour)) g)
     = (Ok false,
        mkWorld (FlashcardExercise.mk None (ExerciseState.mk 3 1 0) (Some bonjour)) g)
  /\ ConjugationExercise.check_answer unicode_lower (str "parles")
       (mkWorld (ConjugationExercise.mk (ExerciseState.mk 3 3 3) (Some parler) 0) g)
     = (Ok false,
        mkWorld (ConjugationExercise.mk (ExerciseState.mk 4 3 0) (Some parler) 0) g)
  /\ ConjugationExercise.check_answer unicode_lower (str " Parles ")
       (mkWorld (ConjugationExercise.mk (ExerciseState.mk 3 2 0) (Some parler) 1) g)
     = (Ok true,
        mkWorld (ConjugationExercise.mk (ExerciseState.mk 4 3 1) (Some parler) 1) g).
Proof.
  intros unicode_lower g bonjour parler.
  destruct (check_answer_policy unicode_lower) as (Hflash & Hhello & Hconj & _).
  split; [|split; [|split]].
  - exact (Hhello
             (mkWorld (FlashcardExercise.mk None (ExerciseState.mk 2 1 0) (Some bonjour)) g)
             bonjour eq_refl eq_refl).
  - destruct (Hflash (str "goodbye")
                (mkWorld (FlashcardExercise.mk None (ExerciseState.mk 2 1 1) (Some bonjour)) g)
                bonjour eq_refl) as (correct & Hrun & _ & Hiff).
    rewrite Hrun. destruct correct; [|reflexivity].
    destruct Hiff as [Hiff _]. discriminate (Hiff eq_refl).
  - destruct (Hconj (str "parles")
                (mkWorld (ConjugationExercise.mk (ExerciseState.mk 3 3 3) (Some parler) 0) g)
                parler (str "parle") eq_refl eq_refl) as (correct & Hrun & _ & Hiff).
    rewrite Hrun. destruct correct; [|reflexivity].
    destruct Hiff as [Hiff _]. discriminate (Hiff eq_refl).
  - destruct (Hconj (str " Parles ")
                (mkWorld (ConjugationExercise.mk (ExerciseState.mk 3 2 0) (Some parler) 1) g)
                parler (str "parles") eq_refl eq_refl) as (correct & Hrun & _ & Hiff).
    rewrite Hrun. destruct correct; [reflexivity|].
    destruct Hiff as [_ Hiff]. discriminate (Hiff eq_refl).
Defined.

Lemma cycle_prompt_period_witness :
  let g := mkRng (fun n => n) O in
  let parler := pattern "parler" "parle" "parles" "parle" "parlons" "parlez" "parlent" in
  let w := mkWorld (ConjugationExercise.mk ExerciseState.init (Some parler) 0) g in
  cycle_times 6 w = (Ok tt, w)
  /\ ConjugationExercise.cycle_prompt w
     = (Ok (str "parler", str "tu"),
        mkWorld (ConjugationExercise.mk ExerciseState.init (Some parler) 1) g).
Proof.
  intros g parler w.
  destruct cycle_prompt_period as (Hcycle & Hsix & _).
  split.
  - apply (Hsix w parler); [reflexivity | unfold slot_valid; simpl; lia].
  - destruct (Hcycle w parler eq_refl) as (_ & label & Hlook & _ & Hrun).
    rewrite Hrun. injection Hlook as <-. reflexivity.
Defined.

Lemma check_answer_prompts_first_witness :
  let unicode_lower : pystr -> nat -> N -> pystr := fun _ _ c => [c] in
  let g := mkRng (fun n => n) O in
  (exists item correct w',
      FlashcardExercise.check_answer unicode_lower (str "hello")
        (mkWorld FlashcardExercise.init g) = (Ok correct, w')
      /\ item ∈ VOCABULARY
      /\ FlashcardExercise.current_item (self w') = Some item)
  /\ (exists pattern correct w',
        ConjugationExercise.check_answer unicode_lower (str "parle")
          (mkWorld ConjugationExercise.init g) = (Ok correct, w')
        /\ pattern ∈ PRESENT_TENSE
        /\ ConjugationExercise.current_pattern (self w') = Some pattern
        /\ ConjugationExercise.current_index (self w') = 0).
Proof.
  intros unicode_lower g.
  destruct (check_answer_prompts_first unicode_lower) as (Hflash & Hconj).
  split.
  - destruct (Hflash (str "hello") (mkWorld FlashcardExercise.init g) eq_refl)
      as (_ & item & correct & w' & Hrun & _ & Hin & Hitem & _).
    exists item, correct, w'. auto.
  - destruct (Hconj (str "parle") (mkWorld ConjugationExercise.init g) eq_refl)
      as (_ & p & correct & w' & Hrun & Hin & Hp & Hi & _).
    exists p, correct, w'. auto.
Defined.

Lemma check_answer_frame_witness :
  let unicode_lower : pystr -> nat -> N -> pystr := fun _ _ c => [c] in
  let g := mkRng (fun n => n) O in
  let chat := vocab "chat" "cat" "animals" in
  let avoir := pattern "avoir" "ai" "as" "a" "avons" "avez" "ont" in
  let w := mkWorld (FlashcardExercise.mk (Some (str "animals")) ExerciseState.init
                      (Some chat)) g in
  let v := mkWorld (ConjugationExercise.mk ExerciseState.init (Some avoir) 4) g in
  (FlashcardExercise.current_item
     (self (snd (FlashcardExercise.check_answer unicode_lower (str "dog") w))) = Some chat
   /\ FlashcardExercise.category
        (self (snd (FlashcardExercise.check_answer unicode_lower (str "dog") w)))
      = Some (str "animals"))
  /\ (ConjugationExercise.current_pattern
        (self (snd (ConjugationExercise.check_answer unicode_lower (str "avez") v)))
      = Some avoir
      /\ ConjugationExercise.current_index
           (self (snd (ConjugationExercise.check_answer unicode_lower (str "avez") v))) = 4).
Proof.
  intros unicode_lower g chat avoir w v.
  destruct (check_answer_frame unicode_lower) as (Hflash & Hconj).
  split.
  - destruct (Hflash (str "dog") w) as (H1 & H2 & _); [discriminate|].
    split; [exact H1 | exact H2].
  - destruct (Hconj (str "avez") v) as (H1 & H2 & _); [discriminate|].
    split; [exact H1 | exact H2].
Defined.

(** * Further properties of the code *)

(** ** data.py: [categories] *)

Lemma contains_elem (x : pystr) (seq : list pystr) :
  contains x seq = true <-> x ∈ seq.
Proof.
  unfold contains. rewrite existsb_exists, list_elem_of_In. split.
  - intros (y & Hy & E). apply bool_decide_eq_true in E. now subst y.
  - intros Hx. exists x. split; [assumption|]. now apply bool_decide_eq_true.
Qed.

Lemma categories_from_snoc seen items item :
  categories_from seen (items ++ [item])
  = if negb (contains (VocabularyItem.category item) (categories_from seen items))
    then categories_from seen items ++ [VocabularyItem.category item]
    else categories_from seen items.
Proof. unfold categories_from. now rewrite fold_left_app. Qed.

Lemma categories_from_elem seen items (c : pystr) :
  c ∈ categories_from seen items
  <-> c ∈ seen \/ exists item, item ∈ items /\ VocabularyItem.category item = c.
Proof.
  induction items as [|item items IH] using rev_ind.
  - cbn. split; [now left | intros [H|(item & H & _)]; [assumption|]].
    now apply not_elem_of_nil in H.
  - rewrite categories_from_snoc.
    assert ((exists i, i ∈ items ++ [item] /\ VocabularyItem.category i = c)
            <-> (exists i, i ∈ items /\ VocabularyItem.category i = c)
                \/ VocabularyItem.category item = c) as Hsplit.
    { split.
      - intros (i & Hi & E). apply elem_of_app in Hi as [Hi|Hi].
        + left. now exists i.
        + apply list_elem_of_singleton in Hi. subst i. now right.
      - intros [(i & Hi & E)|E].
        + exists i. split; [apply elem_of_app; now left | assumption].
        + exists item. split; [apply elem_of_app; right; now left | assumption]. }
    rewrite Hsplit.
    destruct (contains (VocabularyItem.category item) (categories_from seen items))
      eqn:Hc; cbn [negb].
    + apply contains_elem in Hc. rewrite IH. split; [tauto|].
      intros [H|[H|E]]; [tauto | tauto |]. subst c. now apply IH.
    + rewrite elem_of_app, list_elem_of_singleton, IH. split.
      * intros [[H|H]|H]; [tauto | tauto | right; right; now symmetry].
      * intros [H|[H|E]]; [tauto | tauto | now right].
Qed.

Lemma categories_from_NoDup seen items :
  NoDup seen -> NoDup (categories_from seen items).
Proof.
  intros Hseen. induction items as [|item items IH] using rev_ind.
  - exact Hseen.
  - rewrite categories_from_snoc.
    destruct (contains (VocabularyItem.category item) (categories_from seen items))
      eqn:Hc; cbn [negb]; [assumption|].
    apply NoDup_app. repeat split; [assumption | | apply NoDup_singleton].
    intros x Hx ->%list_elem_of_singleton.
    apply contains_elem in Hx. congruence.
Qed.

Lemma categories_from_length seen items :
  (length (categories_from seen items) <= length seen + length items)%nat.
Proof.
  induction items as [|item items IH] using rev_ind.
  - cbn. lia.
  - rewrite categories_from_snoc, length_app. cbn [length].
    destruct (negb _); [rewrite length_app; cbn [length]|]; lia.
Qed.

(** X1. [categories(items)] holds exactly the category names that occur in
    [items], each of them once, so it is never longer than [items]. *)
Theorem categories_exact (items : list VocabularyItem.t) :
  (forall c, c ∈ categories items
             <-> exists item, item ∈ items /\ VocabularyItem.category item = c)
  /\ NoDup (categories items)
  /\ (length (categories items) <= length items)%nat.
Proof.
  change (categories items) with (categories_from [] items).
  split; [|split].
  - intros c. rewrite categories_from_elem. split; [|tauto].
    intros [H|H]; [now apply not_elem_of_nil in H | assumption].
  - apply categories_from_NoDup. constructor.
  - apply (categories_from_length [] items).
Qed.

Lemma filter_twice {A} (p q : A -> bool) (l : list A) :
  List.filter p (List.filter q l) = List.filter (fun x => p x && q x) l.
Proof.
  induction l as [|a l IH]; [reflexivity|].
  cbn. destruct (q a) eqn:Hq; cbn; rewrite ?Hq, IH.
  - now rewrite andb_true_r.
  - now rewrite andb_false_r.
Qed.

(** The loop started with [seen] yields [seen] followed by what the loop
    started empty yields, less the names already seen. *)
Lemma categories_from_seen seen items :
  categories_from seen items
  = seen ++ List.filter (fun c => negb (contains c seen)) (categories_from [] items).
Proof.
  revert seen. induction items as [|item items IH]; intros seen.
  - cbn. now rewrite app_nil_r.
  - set (c := VocabularyItem.category item).
    change (categories_from [] (item :: items)) with (categories_from [c] items).
    rewrite (IH [c]). cbn [app List.filter].
    rewrite filter_twice.
    destruct (contains c seen) eqn:Hc.
    + change (categories_from seen (item :: items))
        with (categories_from (if negb (contains c seen) then seen ++ [c] else seen) items).
      rewrite Hc. cbn [negb]. rewrite IH. f_equal.
      apply filter_ext. intros x.
      destruct (contains x seen) eqn:Hx; cbn [negb andb]; [reflexivity|].
      unfold contains at 1. cbn [existsb]. rewrite orb_false_r.
      destruct (str_eq c x) eqn:E; [|reflexivity].
      apply bool_decide_eq_true in E. congruence.
    + change (categories_from seen (item :: items))
        with (categories_from (if negb (contains c seen) then seen ++ [c] else seen) items).
      rewrite Hc. cbn [negb]. rewrite IH, <- app_assoc. cbn [app]. do 2 f_equal.
      apply filter_ext. intros x. unfold contains. rewrite existsb_app.
      cbn [existsb]. now rewrite negb_orb.
Qed.

(** X2. [categories] lists the names in order of first occurrence: an item
    put in front contributes its category first and removes it from what
    follows, and items added at the end contribute only the categories not
    yet listed, after those already listed. *)
Theorem categories_first_occurrence
        (item : VocabularyItem.t) (items more : list VocabularyItem.t) :
  categories (item :: items)
  = VocabularyItem.category item
    :: List.filter (fun c => negb (str_eq c (VocabularyItem.category item)))
                   (categories items)
  /\ categories (items ++ more)
     = categories items
       ++ List.filter (fun c => negb (contains c (categories items))) (categories more).
Proof.
  split.
  - change (categories (item :: items))
      with (categories_from [VocabularyItem.category item] items).
    rewrite categories_from_seen. cbn [app]. f_equal.
    apply filter_ext. intros x. unfold contains, str_eq. cbn [existsb].
    rewrite orb_false_r. f_equal. apply bool_decide_ext. split; congruence.
  - unfold categories at 1. rewrite fold_left_app.
    apply (categories_from_seen (categories items) more).
Qed.

(** ** data.py: [random_vocabulary_item] on any catalog *)

Lemma filter_category_subset (vocabulary : list VocabularyItem.t)
      (c : option pystr) (item : VocabularyItem.t) :
  item ∈ List.filter (category_is c) vocabulary -> item ∈ vocabulary.
Proof. rewrite !list_elem_of_In, filter_In. tauto. Qed.

Lemma random_vocabulary_item_from_run (vocabulary : list VocabularyItem.t)
      (c : option pystr) (g : Rng) :
  vocabulary <> [] ->
  exists item,
    random_vocabulary_item_from vocabulary c g
    = (Ok item, mkRng (draws g) (S (cursor g)))
    /\ item ∈ vocabulary
    /\ (truthy c = true -> is_all c = false ->
        List.filter (category_is c) vocabulary <> [] ->
        category_is c item = true).
Proof.
  intros Hne. unfold random_vocabulary_item_from.
  destruct (negb (truthy c) || is_all c) eqn:Hall.
  - destruct (choice_elem vocabulary g Hne) as (item & Hrun & Hin).
    exists item. repeat split; try assumption.
    intros Ht Ha. rewrite Ht, Ha in Hall. discriminate.
  - destruct (List.filter (category_is c) vocabulary) as [|a l] eqn:Ef.
    + destruct (choice_elem vocabulary g Hne) as (item & Hrun & Hin).
      exists item. repeat split; try assumption. congruence.
    + destruct (choice_elem (a :: l) g) as (item & Hrun & Hin); [discriminate|].
      exists item. rewrite <- Ef in Hin. repeat split; try assumption.
      * now apply filter_category_subset in Hin.
      * intros _ _ _. apply list_elem_of_In, filter_In in Hin. tauto.
Qed.

(** X3. On any catalog and for any category argument,
    [random_vocabulary_item] fails only when the catalog is empty: then it
    raises [IndexError] and leaves the generator untouched; otherwise it
    returns an item of the catalog and uses exactly one draw. *)
Theorem random_vocabulary_item_from_total (vocabulary : list VocabularyItem.t)
        (c : option pystr) (g : Rng) :
  (vocabulary = [] ->
     random_vocabulary_item_from vocabulary c g = (Raise IndexError, g))
  /\ (vocabulary <> [] ->
        exists item,
          random_vocabulary_item_from vocabulary c g
          = (Ok item, mkRng (draws g) (S (cursor g)))
          /\ item ∈ vocabulary).
Proof.
  split.
  - intros ->. unfold random_vocabulary_item_from. cbn.
    now destruct (negb (truthy c) || is_all c).
  - intros Hne.
    destruct (random_vocabulary_item_from_run vocabulary c g Hne)
      as (item & Hrun & Hin & _).
    now exists item.
Qed.

Lemma random_vocabulary_item_from_total_witness :
  random_vocabulary_item_from [] (Some (str "food")) (mkRng (fun n => n) 3)
  = (Raise IndexError, mkRng (fun n => n) 3)
  /\ exists item,
      random_vocabulary_item_from VOCABULARY (Some (str "food")) (mkRng (fun n => n) 3)
      = (Ok item, mkRng (fun n => n) 4)
      /\ item ∈ VOCABULARY.
Proof.
  split.
  - apply (random_vocabulary_item_from_total [] (Some (str "food"))). reflexivity.
  - apply (random_vocabulary_item_from_total VOCABULARY (Some (str "food"))
             (mkRng (fun n => n) 3)).
    discriminate.
Defined.

Lemma category_is_name (name : pystr) (item : VocabularyItem.t) :
  category_is (Some name) item = true <-> VocabularyItem.category item = name.
Proof. unfold category_is, str_eq. apply bool_decide_eq_true. Qed.

Lemma named_category (name : pystr) :
  name <> [] -> name <> str "all" ->
  truthy (Some name) = true /\ is_all (Some name) = false.
Proof.
  intros H1 H2. split.
  - destruct name; [contradiction | reflexivity].
  - unfold is_all, str_eq. now apply bool_decide_eq_false.
Qed.

(** X4. On any catalog, a category name other than [""] and ["all"] that
    some item carries restricts the draw to the items carrying it: the
    result always carries the name, and each item carrying the name is a
    possible result. *)
Theorem random_vocabulary_item_from_filtered (vocabulary : list VocabularyItem.t)
        (name : pystr) :
  name <> [] -> name <> str "all" ->
  (exists item, item ∈ vocabulary /\ VocabularyItem.category item = name) ->
  (forall g, exists item,
       fst (random_vocabulary_item_from vocabulary (Some name) g) = Ok item
       /\ item ∈ vocabulary /\ VocabularyItem.category item = name)
  /\ (forall item, item ∈ vocabulary -> VocabularyItem.category item = name ->
        exists g, fst (random_vocabulary_item_from vocabulary (Some name) g) = Ok item).
Proof.
  intros Hn1 Hn2 (carrier & Hcin & Hccat).
  destruct (named_category name Hn1 Hn2) as [Ht Ha].
  assert (forall item, item ∈ vocabulary -> VocabularyItem.category item = name ->
                       item ∈ List.filter (category_is (Some name)) vocabulary) as Hfil.
  { intros item Hin Hcat. apply list_elem_of_In, filter_In.
    split; [now apply list_elem_of_In | now apply category_is_name]. }
  assert (List.filter (category_is (Some name)) vocabulary <> []) as Hne.
  { intros E. specialize (Hfil carrier Hcin Hccat). rewrite E in Hfil.
    now apply not_elem_of_nil in Hfil. }
  split.
  - intros g.
    destruct (random_vocabulary_item_from_run vocabulary (Some name) g)
      as (item & Hrun & Hin & Hcat).
    { intros ->. now apply not_elem_of_nil in Hcin. }
    exists item. rewrite Hrun. repeat split; [assumption|].
    apply category_is_name. now apply Hcat.
  - intros item Hin Hcat. specialize (Hfil item Hin Hcat).
    unfold random_vocabulary_item_from. rewrite Ht, Ha. cbn [negb orb].
    destruct (List.filter (category_is (Some name)) vocabulary) as [|a l] eqn:Ef;
      [contradiction|].
    now apply choice_any.
Qed.

Lemma random_vocabulary_item_from_filtered_witness :
  let oui := VocabularyItem.mk (str "oui") (str "yes") (str "words") in
  let chat := VocabularyItem.mk (str "chat") (str "cat") (str "animals") in
  exists item,
    fst (random_vocabulary_item_from [oui; chat] (Some (str "animals"))
           (mkRng (fun n => n) 0)) = Ok item
    /\ item ∈ [oui; chat] /\ VocabularyItem.category item = str "animals".
Proof.
  intros oui chat.
  apply (random_vocabulary_item_from_filtered [oui; chat] (str "animals")).
  - discriminate.
  - discriminate.
  - exists chat. split; [right; left | reflexivity].
Defined.

(** X5. Every name that [categories(VOCABULARY)] offers selects items of
    that category: [random_vocabulary_item] called with it returns an item
    carrying it and never falls back to the whole catalog. *)
Theorem categories_select_their_items (c : pystr) (g : Rng) :
  c ∈ categories VOCABULARY ->
  exists item,
    fst (random_vocabulary_item (Some c) g) = Ok item
    /\ item ∈ VOCABULARY /\ VocabularyItem.category item = c.
Proof.
  intros Hc.
  change (categories VOCABULARY) with (categories_from [] VOCABULARY) in Hc.
  apply categories_from_elem in Hc as [Hc|(carrier & Hin & Hcat)];
    [now apply not_elem_of_nil in Hc|].
  pose proof VOCABULARY_categories as Hall.
  rewrite Forall_forall in Hall. destruct (Hall carrier Hin) as [H1 H2].
  rewrite Hcat in H1, H2.
  destruct (random_vocabulary_item_from_run VOCABULARY (Some c) g)
    as (item & Hrun & Hitem & Hsel); [discriminate|].
  destruct (named_category c H1 H2) as [Ht Ha].
  exists item. unfold random_vocabulary_item. rewrite Hrun.
  repeat split; [assumption|].
  apply category_is_name. apply Hsel; [assumption | assumption |].
  intros E.
  assert (carrier ∈ List.filter (category_is (Some c)) VOCABULARY) as Hf.
  { apply list_elem_of_In, filter_In.
    split; [now apply list_elem_of_In | now apply category_is_name]. }
  rewrite E in Hf. now apply not_elem_of_nil in Hf.
Qed.

Lemma categories_select_their_items_witness :
  exists item,
    fst (random_vocabulary_item (Some (str "home")) (mkRng (fun n => n) 2)) = Ok item
    /\ item ∈ VOCABULARY /\ VocabularyItem.category item = str "home".
Proof.
  apply categories_select_their_items.
  apply list_elem_of_lookup_2 with 2%nat. reflexivity.
Defined.

(** ** exercises.py: [ExerciseState] *)

Lemma attempts_correct (outcomes : list bool) :
  ExerciseState.correct_attempts (attempts outcomes)
  = Z.of_nat (length (List.filter (fun correct => correct) outcomes)).
Proof.
  induction outcomes as [|correct outcomes IH] using rev_ind.
  - reflexivity.
  - rewrite attempts_snoc, List.filter_app, length_app.
    destruct (register_attempt_fields correct (attempts outcomes)) as (_ & -> & _).
    rewrite IH. destruct correct; cbn [List.filter length]; lia.
Qed.

(** X6. After any sequence of [register_attempt] calls on a new session
    state, [correct_attempts] is the number of correct outcomes and
    [total_attempts - correct_attempts] the number of incorrect ones. *)
Theorem counters_count_outcomes (outcomes : list bool) :
  ExerciseState.correct_attempts (attempts outcomes)
  = Z.of_nat (length (List.filter (fun correct => correct) outcomes))
  /\ ExerciseState.total_attempts (attempts outcomes)
     - ExerciseState.correct_attempts (attempts outcomes)
     = Z.of_nat (length (List.filter negb outcomes)).
Proof.
  split; [apply attempts_correct|].
  rewrite attempts_total, attempts_correct.
  induction outcomes as [|[|] outcomes IH]; cbn [List.filter length negb]; lia.
Qed.




Lemma filter_all (outcomes : list bool) :
  length (List.filter (fun correct => correct) outcomes) = length outcomes
  <-> Forall (fun correct => correct = true) outcomes.
Proof.
  induction outcomes as [|[|] outcomes IH]; cbn [List.filter length].
  - split; [constructor | reflexivity].
  - rewrite Forall_cons. split; [intros H; split; [reflexivity | apply IH; lia]|].
    intros [_ H]. apply IH in H. lia.
  - pose proof (filter_length_le (fun correct : bool => correct) outcomes) as Hle.
    split; [lia | intros H; inversion H; discriminate].
Qed.

(** The state after [n] correct attempts and an incorrect one. *)
Lemma attempts_one_incorrect (n : Z) :
  0 <= n ->
  exists outcomes,
    ~ Forall (fun correct => correct = true) outcomes
    /\ attempts outcomes = ExerciseState.mk (n + 1) n 0.
Proof.
  intros Hn. exists (repeat true (Z.to_nat n) ++ [false]). split.
  - rewrite Forall_app, Forall_singleton. intros [_ H]. discriminate H.
  - rewrite attempts_snoc.
    pose proof (attempts_total (repeat true (Z.to_nat n))) as Ht.
    pose proof (attempts_correct (repeat true (Z.to_nat n))) as Hc.
    assert (forall k, List.filter (fun correct : bool => correct) (repeat true k)
                      = repeat true k) as Hf.
    { induction k as [|k IH]; [reflexivity|].
      cbn [repeat List.filter]. now rewrite IH. }
    rewrite Hf in Hc. rewrite repeat_length, Z2Nat.id in Ht, Hc by exact Hn.
    destruct (attempts (repeat true (Z.to_nat n))) as [total correct streak].
    cbn [ExerciseState.total_attempts ExerciseState.correct_attempts] in Ht, Hc.
    subst total correct. reflexivity.
Qed.

(** X8. After a sequence of [register_attempt] calls on a new session
    state with at least one attempt and none incorrect, [accuracy] is
    exactly the float 1.0; and the streak equals the number of attempts
    exactly when none was incorrect. The float 1.0 alone does not tell
    that no attempt was incorrect: after 2^54 attempts of which the last
    is incorrect the quotient rounds to 1.0 as well. *)
Theorem accuracy_perfect :
  (forall outcomes,
      outcomes <> [] ->
      Forall (fun correct => correct = true) outcomes ->
      ExerciseState.accuracy_float (attempts outcomes) = Ok float_one)
  /\ (forall outcomes,
        ExerciseState.current_streak (attempts outcomes)
        = ExerciseState.total_attempts (attempts outcomes)
        <-> Forall (fun correct => correct = true) outcomes)
  /\ (exists outcomes,
        ~ Forall (fun correct => correct = true) outcomes
        /\ ExerciseState.total_attempts (attempts outcomes) = 2 ^ 54
        /\ ExerciseState.correct_attempts (attempts outcomes) = 2 ^ 54 - 1
        /\ ExerciseState.accuracy_float (attempts outcomes) = Ok float_one).
Proof.
  split; [|split].
  - intros outcomes Hne Hall.
    assert (ExerciseState.total_attempts (attempts outcomes) <> 0) as Ht.
    { rewrite attempts_total. destruct outcomes; [contradiction | cbn [length]; lia]. }
    rewrite (accuracy_float_quotient _ Ht).
    apply filter_all in Hall.
    rewrite attempts_correct, Hall, <- attempts_total.
    apply int_truediv_diag. rewrite attempts_total in Ht |- *. lia.
  - intros outcomes. rewrite attempts_streak, attempts_total, Nat2Z.inj_iff.
    induction outcomes as [|correct outcomes IH] using rev_ind.
    + split; [constructor | reflexivity].
    + rewrite trailing_run_snoc, length_app, Forall_app, Forall_singleton.
      cbn [length]. destruct correct.
      * rewrite <- IH. split; [intros H; split; [lia | reflexivity] | intros [H _]; lia].
      * split; [lia | intros [_ H]; discriminate].
  - destruct (attempts_one_incorrect (2 ^ 54 - 1)) as (outcomes & Hsome & Hstate);
      [discriminate|].
    exists outcomes. rewrite Hstate. split; [exact Hsome|]. repeat split.
Qed.

Lemma accuracy_perfect_witness :
  ExerciseState.accuracy_float (attempts [true; true; true]) = Ok float_one
  /\ ExerciseState.current_streak (attempts [true; true; true]) = 3.
Proof.
  destruct accuracy_perfect as (Hone & Hstreak & _).
  split.
  - apply Hone; [discriminate | repeat constructor].
  - rewrite (proj2 (Hstreak [true; true; true])) by repeat constructor. reflexivity.
Defined.

(** ** exercises.py: what [check_answer] makes of the submission *)

Lemma lstrip_all_space (l s : pystr) :
  all_space l -> lstrip (l ++ s) = lstrip s.
Proof.
  induction 1 as [|c l Hc _ IH]; [reflexivity|].
  cbn. now rewrite Hc.
Qed.

Lemma lstrip_app (s r : pystr) :
  lstrip s <> [] -> lstrip (s ++ r) = lstrip s ++ r.
Proof.
  induction s as [|c s IH]; [contradiction|].
  cbn. destruct (isspace c); [exact IH | reflexivity].
Qed.

Lemma rstrip_all_space (s r : pystr) :
  all_space r -> rstrip (s ++ r) = rstrip s.
Proof.
  intros Hr. unfold rstrip. rewrite reverse_app, lstrip_all_space; [reflexivity|].
  now apply Forall_reverse.
Qed.

(** Whitespace around a string does not change what [strip] returns. *)
Lemma strip_surrounded (l s r : pystr) :
  all_space l -> all_space r -> strip (l ++ s ++ r) = strip s.
Proof.
  intros Hl Hr. unfold strip. rewrite lstrip_all_space by assumption.
  destruct (lstrip s) as [|c t] eqn:Es.
  - destruct (lstrip_split s) as (l' & Hs & Hl'). rewrite Es, app_nil_r in Hs.
    subst l'. rewrite <- (app_nil_r (s ++ r)), lstrip_all_space; [reflexivity|].
    now apply Forall_app.
  - rewrite lstrip_app by (rewrite Es; discriminate).
    rewrite Es. now apply rstrip_all_space.
Qed.

Lemma strip_all_space (s : pystr) : all_space s -> strip s = [].
Proof.
  intros Hs. rewrite <- (app_nil_r s).
  apply (strip_surrounded s [] []); [assumption | constructor].
Qed.

Lemma isspace_ascii_lower (c : N) : isspace (ascii_lower c) = isspace c.
Proof.
  unfold ascii_lower.
  destruct ((0x41 <=? c) && (c <=? 0x5A))%N eqn:E; [|reflexivity].
  apply andb_true_iff in E as [H1 H2]. apply N.leb_le in H1, H2.
  unfold isspace.
  repeat match goal with
         | |- context [(?a <=? ?b)%N] => destruct (N.leb_spec a b); try lia
         | |- context [(?a =? ?b)%N] => destruct (N.eqb_spec a b); try lia
         end;
    try reflexivity.
Qed.

Lemma lstrip_ascii_lower (s : pystr) :
  lstrip (map ascii_lower s) = map ascii_lower (lstrip s).
Proof.
  induction s as [|c s IH]; [reflexivity|].
  cbn. rewrite isspace_ascii_lower. now destruct (isspace c).
Qed.

Lemma reverse_map {A B} (f : A -> B) (l : list A) :
  reverse (map f l) = map f (reverse l).
Proof.
  induction l as [|a l IH]; [reflexivity|].
  cbn [map]. now rewrite !reverse_cons, map_app, IH.
Qed.

Lemma strip_ascii_lower (s : pystr) :
  strip (map ascii_lower s) = map ascii_lower (strip s).
Proof.
  unfold strip, rstrip.
  now rewrite lstrip_ascii_lower, !reverse_map, lstrip_ascii_lower, reverse_map.
Qed.

Lemma strip_is_ascii (s : pystr) :
  Forall (fun c => is_ascii c = true) s ->
  Forall (fun c => is_ascii c = true) (strip s).
Proof.
  intros Hs. destruct (strip_spec s) as (l & r & E & _).
  rewrite E in Hs. apply Forall_app in Hs as [_ Hs]. now apply Forall_app in Hs as [Hs _].
Qed.

Lemma concat_singletons {A B} (g : A -> B) (l : list A) :
  concat (imap (fun _ c => [g c]) l) = map g l.
Proof.
  induction l as [|a l IH]; [reflexivity|].
  cbn. f_equal. exact IH.
Qed.

Section Lowering.

Variable unicode_lower : pystr -> nat -> N -> pystr.

(** On a string of ASCII characters [lower] is the ASCII mapping, whatever
    the Unicode table says elsewhere. *)
Lemma lower_ascii (s : pystr) :
  Forall (fun c => is_ascii c = true) s ->
  lower unicode_lower s = map ascii_lower s.
Proof.
  intros Hs. unfold lower.
  rewrite (imap_ext _ (fun _ c => [ascii_lower c])).
  - apply concat_singletons.
  - intros i c Hi. unfold lower_at.
    rewrite Forall_forall in Hs. rewrite (Hs c); [reflexivity|].
    eapply list_elem_of_lookup_2. eassumption.
Qed.

(** A string with an ASCII character in it does not lower-case to the
    empty string. *)
Lemma lower_nonempty (s : pystr) :
  existsb is_ascii s = true -> lower unicode_lower s <> [].
Proof.
  intros Hs E. apply existsb_exists in Hs as (c & Hin & Hc).
  apply list_elem_of_In, list_elem_of_lookup_1 in Hin as [i Hi].
  unfold lower in E.
  assert (lower_at unicode_lower s i c ∈ imap (lower_at unicode_lower s) s) as Hmem.
  { apply list_elem_of_lookup_2 with i. now rewrite list_lookup_imap, Hi. }
  apply list_elem_of_In in Hmem.
  assert (forall ls : list pystr, concat ls = [] -> forall x, In x ls -> x = []) as Hnil.
  { induction ls as [|y ls IH]; [contradiction|].
    cbn. intros Happ x [->|Hx].
    - now apply app_eq_nil in Happ.
    - apply IH; [now apply app_eq_nil in Happ | assumption]. }
  specialize (Hnil _ E _ Hmem). unfold lower_at in Hnil. rewrite Hc in Hnil.
  discriminate.
Qed.

End Lowering.

Lemma getitem_elem {A} (seq : list A) (i : Z) (x : A) :
  getitem seq i = Ok x -> x ∈ seq.
Proof.
  unfold getitem.
  destruct ((0 <=? _) && _); [|discriminate].
  destruct (seq !! _) as [y|] eqn:Hy; [|discriminate].
  intros [= <-]. eapply list_elem_of_lookup_2. eassumption.
Qed.

Lemma VOCABULARY_english :
  Forall (fun item => strip (VocabularyItem.english item) = VocabularyItem.english item
                      /\ existsb is_ascii (VocabularyItem.english item) = true)
         VOCABULARY.
Proof. repeat constructor. Qed.

Lemma PRESENT_TENSE_answers :
  Forall (fun pattern =>
            Forall (fun form => strip form = form /\ existsb is_ascii form = true)
                   (ConjugationPattern.answers pattern))
         PRESENT_TENSE.
Proof. repeat constructor. Qed.

Section Submissions.

Variable unicode_lower : pystr -> nat -> N -> pystr.

(** X9. Whitespace before and after a submission never matters: with or
    without it, [check_answer] of either exercise returns the same result
    and leaves the same state. *)
Theorem check_answer_ignores_outer_space (l answer r : pystr) :
  all_space l -> all_space r ->
  (forall w, FlashcardExercise.check_answer unicode_lower (l ++ answer ++ r) w
             = FlashcardExercise.check_answer unicode_lower answer w)
  /\ (forall w, ConjugationExercise.check_answer unicode_lower (l ++ answer ++ r) w
                = ConjugationExercise.check_answer unicode_lower answer w).
Proof.
  intros Hl Hr. split; intros w.
  - unfold FlashcardExercise.check_answer.
    now rewrite (strip_surrounded l answer r Hl Hr).
  - unfold ConjugationExercise.check_answer.
    now rewrite (strip_surrounded l answer r Hl Hr).
Qed.

Lemma lower_strip_ascii (answer : pystr) :
  Forall (fun c => is_ascii c = true) answer ->
  lower unicode_lower (strip answer) = strip (map ascii_lower answer).
Proof.
  intros Ha. rewrite lower_ascii by now apply strip_is_ascii.
  symmetry. apply strip_ascii_lower.
Qed.

(** X10. Two ASCII submissions that differ only in the case of their
    letters are treated alike by [check_answer] of either exercise: same
    result, same state afterwards. *)
Theorem check_answer_ignores_ascii_case (answer answer' : pystr) :
  Forall (fun c => is_ascii c = true) answer ->
  Forall (fun c => is_ascii c = true) answer' ->
  map ascii_lower answer = map ascii_lower answer' ->
  (forall w, FlashcardExercise.check_answer unicode_lower answer w
             = FlashcardExercise.check_answer unicode_lower answer' w)
  /\ (forall w, ConjugationExercise.check_answer unicode_lower answer w
                = ConjugationExercise.check_answer unicode_lower answer' w).
Proof.
  intros Ha Ha' Hsame.
  assert (lower unicode_lower (strip answer) = lower unicode_lower (strip answer')) as E
    by (rewrite !lower_strip_ascii by assumption; now rewrite Hsame).
  split; intros w.
  - unfold FlashcardExercise.check_answer. now rewrite E.
  - unfold ConjugationExercise.check_answer. now rewrite E.
Qed.

Lemma blank_not_judged (answer target : pystr) :
  all_space answer -> existsb is_ascii target = true ->
  str_eq (lower unicode_lower (strip answer)) (lower unicode_lower target) = false.
Proof.
  intros Hblank Htarget. rewrite (strip_all_space answer Hblank).
  apply bool_decide_eq_false. intros E.
  now apply (lower_nonempty unicode_lower target Htarget).
Qed.

(** X11. An empty or all-whitespace submission is never judged correct:
    for every item of [VOCABULARY] and every form of a [PRESENT_TENSE]
    pattern, [check_answer] returns [false] (and so records an incorrect
    attempt). *)
Theorem blank_answer_incorrect (answer : pystr) :
  all_space answer ->
  (forall w item,
      FlashcardExercise.current_item (self w) = Some item ->
      item ∈ VOCABULARY ->
      fst (FlashcardExercise.check_answer unicode_lower answer w) = Ok false)
  /\ (forall w pattern,
        ConjugationExercise.current_pattern (self w) = Some pattern ->
        pattern ∈ PRESENT_TENSE ->
        slot_valid (self w) ->
        fst (ConjugationExercise.check_answer unicode_lower answer w) = Ok false).
Proof.
  intros Hblank. split.
  - intros w item Hitem Hin.
    rewrite (check_answer_shown unicode_lower answer w item Hitem). cbn [fst].
    pose proof VOCABULARY_english as Hall. rewrite Forall_forall in Hall.
    destruct (Hall item Hin) as [_ Hascii].
    now rewrite blank_not_judged.
  - intros w pattern Hp Hin Hslot.
    destruct (getitem_nonneg (ConjugationPattern.answers pattern)
                (ConjugationExercise.current_index (self w)))
      as (expected & Hexp & _); [now rewrite answers_length|].
    rewrite (conjugation_check_answer_shown unicode_lower answer w pattern expected
               Hp Hexp). cbn [fst].
    pose proof PRESENT_TENSE_answers as Hall. rewrite Forall_forall in Hall.
    specialize (Hall pattern Hin). rewrite Forall_forall in Hall.
    destruct (Hall expected (getitem_elem _ _ _ Hexp)) as [_ Hascii].
    now rewrite blank_not_judged.
Qed.

(** X12. Every prompt can be answered: the English translation of the
    displayed [VOCABULARY] item, and the form at the active slot of the
    displayed [PRESENT_TENSE] pattern, are judged correct, also with
    whitespace around them. *)
Theorem expected_answer_accepted (l r : pystr) :
  all_space l -> all_space r ->
  (forall w item,
      FlashcardExercise.current_item (self w) = Some item ->
      item ∈ VOCABULARY ->
      fst (FlashcardExercise.check_answer unicode_lower
             (l ++ VocabularyItem.english item ++ r) w) = Ok true)
  /\ (forall w pattern expected,
        ConjugationExercise.current_pattern (self w) = Some pattern ->
        pattern ∈ PRESENT_TENSE ->
        getitem (ConjugationPattern.answers pattern)
                (ConjugationExercise.current_index (self w)) = Ok expected ->
        fst (ConjugationExercise.check_answer unicode_lower (l ++ expected ++ r) w)
        = Ok true).
Proof.
  intros Hl Hr. split.
  - intros w item Hitem Hin.
    rewrite (check_answer_shown unicode_lower _ w item Hitem). cbn [fst].
    pose proof VOCABULARY_english as Hall. rewrite Forall_forall in Hall.
    destruct (Hall item Hin) as [Htrim _].
    rewrite (strip_surrounded l _ r Hl Hr), Htrim.
    f_equal. now apply bool_decide_eq_true.
  - intros w pattern expected Hp Hin Hexp.
    rewrite (conjugation_check_answer_shown unicode_lower _ w pattern expected
               Hp Hexp). cbn [fst].
    pose proof PRESENT_TENSE_answers as Hall. rewrite Forall_forall in Hall.
    specialize (Hall pattern Hin). rewrite Forall_forall in Hall.
    destruct (Hall expected (getitem_elem _ _ _ Hexp)) as [Htrim _].
    rewrite (strip_surrounded l _ r Hl Hr), Htrim.
    f_equal. now apply bool_decide_eq_true.
Qed.

End Submissions.

Lemma check_answer_ignores_outer_space_witness :
  let unicode_lower : pystr -> nat -> N -> pystr := fun _ _ c => [c] in
  let w := mkWorld (FlashcardExercise.mk None ExerciseState.init
                      (Some (vocab "chat" "cat" "animals"))) (mkRng (fun n => n) O) in
  FlashcardExercise.check_answer unicode_lower (str "  " ++ str "Cat" ++ str " ") w
  = FlashcardExercise.check_answer unicode_lower (str "Cat") w.
Proof.
  intros unicode_lower w.
  apply (check_answer_ignores_outer_space unicode_lower (str "  ") (str "Cat") (str " "));
    repeat constructor.
Defined.

Lemma check_answer_ignores_ascii_case_witness :
  let unicode_lower : pystr -> nat -> N -> pystr := fun _ _ c => [c] in
  let w := mkWorld (ConjugationExercise.mk ExerciseState.init
                      (Some (pattern "avoir" "ai" "as" "a" "avons" "avez" "ont")) 3)
                   (mkRng (fun n => n) O) in
  ConjugationExercise.check_answer unicode_lower (str "AVONS") w
  = ConjugationExercise.check_answer unicode_lower (str "Avons") w.
Proof.
  intros unicode_lower w.
  apply (check_answer_ignores_ascii_case unicode_lower (str "AVONS") (str "Avons"));
    [repeat constructor | repeat constructor | reflexivity].
Defined.

Lemma blank_answer_incorrect_witness :
  let unicode_lower : pystr -> nat -> N -> pystr := fun _ _ c => [c] in
  let w := mkWorld (FlashcardExercise.mk None ExerciseState.init
                      (Some (vocab "chat" "cat" "animals"))) (mkRng (fun n => n) O) in
  fst (FlashcardExercise.check_answer unicode_lower (str "   ") w) = Ok false.
Proof.
  intros unicode_lower w.
  destruct (blank_answer_incorrect unicode_lower (str "   ")) as [H _];
    [repeat constructor|].
  apply (H w (vocab "chat" "cat" "animals")); [reflexivity|].
  apply list_elem_of_lookup_2 with 15%nat. reflexivity.
Defined.

Lemma expected_answer_accepted_witness :
  let unicode_lower : pystr -> nat -> N -> pystr := fun _ _ c => [c] in
  let etre := pattern "être" "suis" "es" "est" "sommes" "êtes" "sont" in
  let w := mkWorld (ConjugationExercise.mk ExerciseState.init (Some etre) 4)
                   (mkRng (fun n => n) O) in
  fst (ConjugationExercise.check_answer unicode_lower (str " " ++ str "êtes" ++ []) w)
  = Ok true.
Proof.
  intros unicode_lower etre w.
  destruct (expected_answer_accepted unicode_lower (str " ") []) as [_ H];
    [repeat constructor | constructor |].
  apply (H w etre (str "êtes")); [reflexivity | | reflexivity].
  apply list_elem_of_lookup_2 with 3%nat. reflexivity.
Defined.

(** ** exercises.py: sessions of calls *)

Lemma next_prompt_category (w : World FlashcardExercise.t) (item : VocabularyItem.t)
      (c : pystr) :
  fst (FlashcardExercise.next_prompt w) = Ok item ->
  FlashcardExercise.category (self w) = Some c ->
  c ∈ categories VOCABULARY ->
  VocabularyItem.category item = c.
Proof.
  intros Hrun Hc Hlisted.
  change (categories VOCABULARY) with (categories_from [] VOCABULARY) in Hlisted.
  apply categories_from_elem in Hlisted as [H|(carrier & Hcin & Hcat)];
    [now apply not_elem_of_nil in H|].
  pose proof VOCABULARY_categories as Hall. rewrite Forall_forall in Hall.
  destruct (Hall carrier Hcin) as [H1 H2]. rewrite Hcat in H1, H2.
  destruct (named_category c H1 H2) as [Ht Ha].
  destruct (random_vocabulary_item_from_run VOCABULARY (Some c) (random w))
    as (item' & Hrun' & _ & Hsel); [discriminate|].
  unfold FlashcardExercise.next_prompt, bind, get, with_random in Hrun.
  cbv beta in Hrun. rewrite Hc in Hrun.
  unfold random_vocabulary_item in Hrun. rewrite Hrun' in Hrun.
  injection Hrun as <-.
  apply category_is_name. apply Hsel; [assumption | assumption |].
  intros E.
  assert (carrier ∈ List.filter (category_is (Some c)) VOCABULARY) as Hf.
  { apply list_elem_of_In, filter_In.
    split; [now apply list_elem_of_In | now apply category_is_name]. }
  rewrite E in Hf. now apply not_elem_of_nil in Hf.
Qed.

(** X13. [FlashcardExercise.next_prompt] always succeeds: it replaces the
    displayed item by a catalog item, which it also returns, uses one draw
    and leaves the category and the session state alone; when the category
    is one that [categories(VOCABULARY)] lists, the item is of that
    category. *)
Theorem flashcard_next_prompt_filtered (w : World FlashcardExercise.t) :
  exists item,
    FlashcardExercise.next_prompt w
    = (Ok item,
       mkWorld (FlashcardExercise.mk (FlashcardExercise.category (self w))
                                     (FlashcardExercise.state (self w)) (Some item))
               (mkRng (draws (random w)) (S (cursor (random w)))))
    /\ item ∈ VOCABULARY
    /\ (forall c, FlashcardExercise.category (self w) = Some c ->
                  c ∈ categories VOCABULARY ->
                  VocabularyItem.category item = c).
Proof.
  destruct (next_prompt_run w) as (item & Hrun & Hin).
  exists item. split; [exact Hrun | split; [exact Hin|]].
  intros c Hc Hlisted.
  apply (next_prompt_category w item c); [now rewrite Hrun | exact Hc | exact Hlisted].
Qed.

Lemma flashcard_next_prompt_filtered_witness :
  let w := mkWorld (FlashcardExercise.mk (Some (str "food")) ExerciseState.init None)
                   (mkRng (fun n => n) O) in
  exists item,
    fst (FlashcardExercise.next_prompt w) = Ok item
    /\ VocabularyItem.category item = str "food".
Proof.
  intros w. destruct (flashcard_next_prompt_filtered w) as (item & Hrun & _ & Hcat).
  exists item. rewrite Hrun. split; [reflexivity|].
  apply Hcat; [reflexivity|].
  apply list_elem_of_lookup_2 with 1%nat. reflexivity.
Defined.

Section Sessions.

Variable unicode_lower : pystr -> nat -> N -> pystr.

(** What a flashcard exercise satisfies throughout a session. *)
Let flashcard_sound (w : World FlashcardExercise.t) : Prop :=
  counters_ordered (FlashcardExercise.state (self w))
  /\ forall item, FlashcardExercise.current_item (self w) = Some item -> item ∈ VOCABULARY.

Lemma flashcard_perform_step (call : flashcard_call) (w : World FlashcardExercise.t) :
  flashcard_sound w ->
  exists w',
    flashcard_perform unicode_lower call w = (Ok tt, w')
    /\ flashcard_sound w'
    /\ ExerciseState.total_attempts (FlashcardExercise.state (self w'))
       = ExerciseState.total_attempts (FlashcardExercise.state (self w))
         + (if flashcard_checks call then 1 else 0).
Proof.
  intros [Hord Hitem].
  destruct call as [c| |answer]; cbn [flashcard_perform flashcard_checks].
  - eexists. split; [reflexivity|]. cbn. split; [split; assumption | lia].
  - destruct (next_prompt_run w) as (item & Hrun & Hin).
    eexists. unfold bind. rewrite Hrun. split; [reflexivity|]. cbn.
    split; [split; [assumption | now intros ? [= <-]] | lia].
  - destruct (FlashcardExercise.current_item (self w)) as [item|] eqn:Hcur.
    + eexists. unfold bind.
      rewrite (check_answer_shown unicode_lower answer w item Hcur).
      split; [reflexivity|]. cbn. split; [split|].
      * now apply register_attempt_ordered.
      * intros item0 H0. apply Hitem. rewrite <- Hcur. exact H0.
      * now destruct (register_attempt_fields
                        (str_eq (lower unicode_lower (strip answer))
                                (lower unicode_lower (VocabularyItem.english item)))
                        (FlashcardExercise.state (self w))) as (-> & _).
    + destruct (next_prompt_run w) as (item & Hrun & Hin).
      eexists. unfold bind.
      rewrite (check_answer_unshown unicode_lower answer w Hcur), Hrun. cbn [snd].
      match goal with
      | |- context [FlashcardExercise.check_answer _ _ ?w1] =>
          rewrite (check_answer_shown unicode_lower answer w1 item eq_refl)
      end.
      split; [reflexivity|]. cbn. split; [split|].
      * now apply register_attempt_ordered.
      * now intros ? [= <-].
      * now destruct (register_attempt_fields
                        (str_eq (lower unicode_lower (strip answer))
                                (lower unicode_lower (VocabularyItem.english item)))
                        (FlashcardExercise.state (self w))) as (-> & _).
Qed.

Lemma flashcard_session_snoc calls call g :
  flashcard_session unicode_lower (calls ++ [call]) g
  = snd (flashcard_perform unicode_lower call (flashcard_session unicode_lower calls g)).
Proof. unfold flashcard_session. now rewrite fold_left_app. Qed.

Lemma flashcard_session_sound calls g :
  flashcard_sound (flashcard_session unicode_lower calls g)
  /\ ExerciseState.total_attempts
       (FlashcardExercise.state (self (flashcard_session unicode_lower calls g)))
     = Z.of_nat (length (List.filter flashcard_checks calls)).
Proof.
  induction calls as [|call calls [IH1 IH2]] using rev_ind.
  - split; [|reflexivity]. split; [unfold counters_ordered; cbn; lia | discriminate].
  - rewrite flashcard_session_snoc.
    destruct (flashcard_perform_step call _ IH1) as (w' & Hrun & Hsound & Htotal).
    rewrite Hrun. cbn [snd]. split; [assumption|].
    rewrite Htotal, IH2, List.filter_app, length_app. cbn [List.filter].
    destruct (flashcard_checks call); cbn [length]; lia.
Qed.

(** X14. In a session on a new [FlashcardExercise()] in which the category
    is set and [next_prompt] and [check_answer] are called in any order, no
    call ever raises; afterwards [total_attempts] is the number of
    [check_answer] calls made, the counters satisfy
    [0 <= current_streak <= correct_attempts <= total_attempts], and the
    displayed item, if any, is an item of [VOCABULARY]. *)
Theorem flashcard_session_safe (calls : list flashcard_call) (g : Rng) :
  let w := flashcard_session unicode_lower calls g in
  (forall call, fst (flashcard_perform unicode_lower call w) = Ok tt)
  /\ ExerciseState.total_attempts (FlashcardExercise.state (self w))
     = Z.of_nat (length (List.filter flashcard_checks calls))
  /\ counters_ordered (FlashcardExercise.state (self w))
  /\ (forall item, FlashcardExercise.current_item (self w) = Some item ->
                   item ∈ VOCABULARY).
Proof.
  intros w. destruct (flashcard_session_sound calls g) as [[Hord Hitem] Htotal].
  repeat split; try assumption; try apply Hord.
  intros call.
  destruct (flashcard_perform_step call w (conj Hord Hitem)) as (w' & Hrun & _).
  now rewrite Hrun.
Qed.

(** What a conjugation exercise satisfies throughout a session. *)
Let conjugation_sound (w : World ConjugationExercise.t) : Prop :=
  slot_valid (self w)
  /\ counters_ordered (ConjugationExercise.state (self w))
  /\ forall pattern, ConjugationExercise.current_pattern (self w) = Some pattern ->
                     pattern ∈ PRESENT_TENSE.

Lemma conjugation_perform_step (call : conjugation_call)
      (w : World ConjugationExercise.t) :
  conjugation_sound w ->
  exists w',
    perform unicode_lower call w = (Ok tt, w')
    /\ conjugation_sound w'
    /\ ConjugationExercise.current_pattern (self w') <> None
    /\ ExerciseState.total_attempts (ConjugationExercise.state (self w'))
       = ExerciseState.total_attempts (ConjugationExercise.state (self w))
         + (if conjugation_checks call then 1 else 0).
Proof.
  intros (Hslot & Hord & Hpat).
  assert (exists w', (ConjugationExercise.next_prompt ;;; ret tt) w = (Ok tt, w')
                     /\ conjugation_sound w'
                     /\ ConjugationExercise.current_pattern (self w') <> None
                     /\ ExerciseState.total_attempts (ConjugationExercise.state (self w'))
                        = ExerciseState.total_attempts (ConjugationExercise.state (self w))
                          + 0) as Hnext.
  { destruct (conjugation_next_prompt_run w) as (p & Hrun & Hin).
    eexists. unfold bind. rewrite Hrun. split; [reflexivity|].
    refine (conj (conj _ (conj _ _)) (conj _ _)).
    - unfold slot_valid. cbn. lia.
    - exact Hord.
    - now intros ? [= <-].
    - discriminate.
    - cbn. lia. }
  destruct call as [| |answer]; cbn [perform conjugation_checks].
  - exact Hnext.
  - destruct (ConjugationExercise.current_pattern (self w)) as [p|] eqn:Hp.
    + destruct (cycle_prompt_run w p Hp) as (label & _ & Hrun).
      eexists. unfold bind. rewrite Hrun. split; [reflexivity|].
      refine (conj (conj _ (conj _ _)) (conj _ _)).
      * unfold slot_valid. cbn. apply Z.mod_pos_bound. lia.
      * exact Hord.
      * intros q Hq. cbn in Hq. rewrite Hp in Hq. injection Hq as <-.
        now apply Hpat.
      * cbn. rewrite Hp. discriminate.
      * cbn. lia.
    + unfold bind at 1. rewrite (cycle_prompt_unshown w Hp). exact Hnext.
  - destruct (ConjugationExercise.current_pattern (self w)) as [p|] eqn:Hp.
    + destruct (getitem_nonneg (ConjugationPattern.answers p)
                  (ConjugationExercise.current_index (self w)))
        as (expected & Hexp & _); [now rewrite answers_length|].
      eexists. unfold bind.
      rewrite (conjugation_check_answer_shown unicode_lower answer w p expected Hp Hexp).
      split; [reflexivity|].
      refine (conj (conj _ (conj _ _)) (conj _ _)).
      * exact Hslot.
      * now apply register_attempt_ordered.
      * intros q Hq. cbn in Hq. rewrite Hp in Hq. injection Hq as <-.
        now apply Hpat.
      * cbn. rewrite Hp. discriminate.
      * cbn [self ConjugationExercise.state ConjugationExercise.set_state].
        now destruct (register_attempt_fields
                        (str_eq (lower unicode_lower (strip answer))
                                (lower unicode_lower expected))
                        (ConjugationExercise.state (self w))) as (-> & _).
    + destruct (conjugation_next_prompt_run w) as (p & Hrun & Hin).
      eexists. unfold bind.
      rewrite (conjugation_check_answer_unshown unicode_lower answer w Hp), Hrun.
      cbn [snd].
      match goal with
      | |- context [ConjugationExercise.check_answer _ _ ?w1] =>
          rewrite (conjugation_check_answer_shown unicode_lower answer w1 p
                     (ConjugationPattern.je p) eq_refl eq_refl)
      end.
      split; [reflexivity|].
      refine (conj (conj _ (conj _ _)) (conj _ _)).
      * unfold slot_valid. cbn. lia.
      * now apply register_attempt_ordered.
      * now intros ? [= <-].
      * discriminate.
      * cbn [self ConjugationExercise.state ConjugationExercise.set_state].
        now destruct (register_attempt_fields
                        (str_eq (lower unicode_lower (strip answer))
                                (lower unicode_lower (ConjugationPattern.je p)))
                        (ConjugationExercise.state (self w))) as (-> & _).
Qed.

Lemma conjugation_session_snoc calls call g :
  conjugation_session unicode_lower (calls ++ [call]) g
  = snd (perform unicode_lower call (conjugation_session unicode_lower calls g)).
Proof. unfold conjugation_session. now rewrite fold_left_app. Qed.

Lemma conjugation_session_sound calls g :
  conjugation_sound (conjugation_session unicode_lower calls g)
  /\ (calls <> [] ->
      ConjugationExercise.current_pattern
        (self (conjugation_session unicode_lower calls g)) <> None)
  /\ ExerciseState.total_attempts
       (ConjugationExercise.state (self (conjugation_session unicode_lower calls g)))
     = Z.of_nat (length (List.filter conjugation_checks calls)).
Proof.
  induction calls as [|call calls (IH1 & _ & IH2)] using rev_ind.
  - split; [|split; [contradiction | reflexivity]].
    refine (conj _ (conj _ _)).
    + unfold slot_valid. cbn. lia.
    + unfold counters_ordered. cbn. lia.
    + discriminate.
  - rewrite conjugation_session_snoc.
    destruct (conjugation_perform_step call _ IH1)
      as (w' & Hrun & Hsound & Hshown & Htotal).
    rewrite Hrun. cbn [snd]. split; [assumption | split; [intros _; assumption|]].
    rewrite Htotal, IH2, List.filter_app, length_app. cbn [List.filter].
    destruct (conjugation_checks call); cbn [length]; lia.
Qed.

(** X15. In a session of [next_prompt], [cycle_prompt] and [check_answer]
    calls, in any order, on a new [ConjugationExercise()], no call ever
    raises; after the first call a pattern of [PRESENT_TENSE] is always
    displayed; [total_attempts] is the number of [check_answer] calls made,
    and the counters satisfy
    [0 <= current_streak <= correct_attempts <= total_attempts]. *)
Theorem conjugation_session_safe (calls : list conjugation_call) (g : Rng) :
  let w := conjugation_session unicode_lower calls g in
  (forall call, fst (perform unicode_lower call w) = Ok tt)
  /\ (calls <> [] ->
      exists pattern,
        ConjugationExercise.current_pattern (self w) = Some pattern
        /\ pattern ∈ PRESENT_TENSE)
  /\ ExerciseState.total_attempts (ConjugationExercise.state (self w))
     = Z.of_nat (length (List.filter conjugation_checks calls))
  /\ counters_ordered (ConjugationExercise.state (self w)).
Proof.
  intros w.
  destruct (conjugation_session_sound calls g)
    as ((Hslot & Hord & Hpat) & Hshown & Htotal).
  split; [|split; [|split]]; try assumption.
  - intros call.
    destruct (conjugation_perform_step call w (conj Hslot (conj Hord Hpat)))
      as (w' & Hrun & _).
    now rewrite Hrun.
  - intros Hne. specialize (Hshown Hne). fold w in Hshown.
    destruct (ConjugationExercise.current_pattern (self w)) as [p|] eqn:Hp;
      [|contradiction].
    exists p. split; [reflexivity | now apply Hpat].
Qed.

End Sessions.

(** ** exercises.py: [ExerciseRegistry] *)

Lemma dict_set_twice {V} (k : pystr) (v v' : V) (d : list (pystr * V)) :
  dict_set k v' (dict_set k v d) = dict_set k v' d.
Proof.
  induction d as [|[k0 v0] d IH]; cbn.
  - unfold str_eq. now rewrite bool_decide_eq_true_2.
  - destruct (str_eq k0 k) eqn:E; cbn; rewrite E; [reflexivity | now rewrite IH].
Qed.

(** X16. On any registry, [create(name)] right after [register(name, f)]
    runs [f], and [create] of every other name behaves as it did before the
    registration. *)
Theorem register_then_create (r : ExerciseRegistry.t) (name : pystr)
        (f : ExerciseRegistry.factory) :
  ExerciseRegistry.create name (ExerciseRegistry.register name f r) = f
  /\ (forall other, other <> name ->
        ExerciseRegistry.create other (ExerciseRegistry.register name f r)
        = ExerciseRegistry.create other r).
Proof.
  unfold ExerciseRegistry.create, ExerciseRegistry.register.
  cbn [ExerciseRegistry._creators]. split.
  - now rewrite dict_get_set_eq.
  - intros other Hother. now rewrite dict_get_set_ne by congruence.
Qed.

Lemma register_then_create_witness :
  ExerciseRegistry.create (str "Conjugation")
    (ExerciseRegistry.register (str "Quiz") FlashcardExercise_new EXERCISES)
  = ExerciseRegistry.create (str "Conjugation") EXERCISES.
Proof.
  apply (register_then_create EXERCISES (str "Quiz") FlashcardExercise_new).
  discriminate.
Defined.

(** X17. Registering a name that is already registered keeps the order of
    [names()] and only replaces the factory, so that an earlier
    registration of the same name leaves no trace; registering a new name
    puts it last. *)
Theorem register_again (r : ExerciseRegistry.t) (name : pystr)
        (f f' : ExerciseRegistry.factory) :
  (name ∈ ExerciseRegistry.names r ->
     ExerciseRegistry.names (ExerciseRegistry.register name f r)
     = ExerciseRegistry.names r)
  /\ (name ∉ ExerciseRegistry.names r ->
        ExerciseRegistry.names (ExerciseRegistry.register name f r)
        = ExerciseRegistry.names r ++ [name])
  /\ ExerciseRegistry.register name f' (ExerciseRegistry.register name f r)
     = ExerciseRegistry.register name f' r.
Proof.
  unfold ExerciseRegistry.names, ExerciseRegistry.register.
  cbn [ExerciseRegistry._creators]. rewrite dict_keys_set. split; [|split].
  - intros Hin. now rewrite bool_decide_eq_true_2.
  - intros Hnot. now rewrite bool_decide_eq_false_2.
  - now rewrite dict_set_twice.
Qed.

Lemma register_again_witness :
  ExerciseRegistry.names
    (ExerciseRegistry.register (str "Flashcards") ConjugationExercise_new EXERCISES)
  = [str "Flashcards"; str "Conjugation"]
  /\ ExerciseRegistry.names
       (ExerciseRegistry.register (str "Quiz") FlashcardExercise_new EXERCISES)
     = [str "Flashcards"; str "Conjugation"; str "Quiz"].
Proof.
  split.
  - destruct (register_again EXERCISES (str "Flashcards")
                ConjugationExercise_new ConjugationExercise_new) as (H & _).
    rewrite H; [reflexivity | left].
  - destruct (register_again EXERCISES (str "Quiz")
                FlashcardExercise_new FlashcardExercise_new) as (_ & H & _).
    rewrite H; [reflexivity|].
    intros Hin. apply list_elem_of_In in Hin. cbn in Hin.
    destruct Hin as [Hin | [Hin | []]]; discriminate Hin.
Defined.

(** X18. Instances created through the registry are independent: two
    [create] calls on constructor factories return different objects, each
    in its initial state, and every object that existed before is left as
    it was. *)
Theorem created_instances_independent (r : ExerciseRegistry.t) (name name' : pystr)
        (o o' : Exercise) (h : gmap positive Exercise) :
  dict_get name (ExerciseRegistry._creators r) = Some (new o) ->
  dict_get name' (ExerciseRegistry._creators r) = Some (new o') ->
  exists l l' h',
    (l <- ExerciseRegistry.create name r ;;
     l' <- ExerciseRegistry.create name' r ;;
     ret (l, l')) h = (Ok (l, l'), h')
    /\ l <> l'
    /\ h' !! l = Some o /\ h' !! l' = Some o'
    /\ (forall k, k ∈ dom h -> h' !! k = h !! k).
Proof.
  intros Hf Hf'.
  destruct (new_fresh o h) as (l & Hrun & Hl).
  destruct (new_fresh o' (<[l := o]> h)) as (l' & Hrun' & Hl').
  exists l, l', (<[l' := o']> (<[l := o]> h)).
  assert (l <> l') as Hne.
  { intros <-. now rewrite lookup_insert_eq in Hl'. }
  split; [|split; [assumption | split; [|split]]].
  - unfold bind, ExerciseRegistry.create. rewrite Hf, Hf', Hrun, Hrun'. reflexivity.
  - rewrite lookup_insert_ne by congruence. apply lookup_insert_eq.
  - apply lookup_insert_eq.
  - intros k Hk. apply elem_of_dom in Hk as [x Hx].
    assert (l <> k) as Hlk by congruence.
    assert (l' <> k) as Hlk'.
    { intros ->. rewrite lookup_insert_ne in Hl' by assumption. congruence. }
    now rewrite !lookup_insert_ne by assumption.
Qed.

Lemma created_instances_independent_witness :
  let h : gmap positive Exercise := {[ 1%positive := Flashcard FlashcardExercise.init ]} in
  exists l l' h',
    (l <- ExerciseRegistry.create (str "Flashcards") EXERCISES ;;
     l' <- ExerciseRegistry.create (str "Flashcards") EXERCISES ;;
     ret (l, l')) h = (Ok (l, l'), h')
    /\ l <> l'
    /\ h' !! l = Some (Flashcard FlashcardExercise.init)
    /\ h' !! l' = Some (Flashcard FlashcardExercise.init)
    /\ (forall k, k ∈ dom h -> h' !! k = h !! k).
Proof.
  intros h.
  apply (created_instances_independent EXERCISES (str "Flashcards") (str "Flashcards"));
    reflexivity.
Defined.

(** ** gui.py: the flashcard tab *)

Section FlashcardTabs.

Import FlashcardTab.

Variable unicode_lower : pystr -> nat -> N -> pystr.
Variable format_percent : Q -> pystr.

Lemma flashcard_tab_next_run (w : World t) :
  exists item,
    item ∈ VOCABULARY
    /\ (forall c, FlashcardExercise.category (exercise (self w)) = Some c ->
                  c ∈ categories VOCABULARY -> VocabularyItem.category item = c)
    /\ _next w
       = (Ok tt,
          mkWorld (mk (FlashcardExercise.set_current_item (Some item) (exercise (self w)))
                      (str "Translate: " ++ VocabularyItem.french item)
                      (str "") (str "") (category_var (self w)) (stats (self w)))
                  (mkRng (draws (random w)) (S (cursor (random w))))).
Proof.
  destruct (next_prompt_run (mkWorld (exercise (self w)) (random w)))
    as (item & Hrun & Hin).
  exists item. split; [assumption | split].
  - intros c Hc Hlisted.
    apply (next_prompt_category (mkWorld (exercise (self w)) (random w)) item c);
      [now rewrite Hrun | exact Hc | exact Hlisted].
  - unfold _next, bind, on_exercise, update_self, modify. now rewrite Hrun.
Qed.

Lemma flashcard_tab_check_shown (w : World t) (item : VocabularyItem.t) (c : N)
      (answer : pystr) :
  FlashcardExercise.current_item (exercise (self w)) = Some item ->
  answer_var (self w) = c :: answer ->
  let correct := str_eq (lower unicode_lower (strip (c :: answer)))
                        (lower unicode_lower (VocabularyItem.english item)) in
  let w1 := mkWorld (set_exercise
                       (FlashcardExercise.set_state
                          (ExerciseState.register_attempt correct
                             (FlashcardExercise.state (exercise (self w))))
                          (exercise (self w))) (self w)) (random w) in
  _check_answer unicode_lower format_percent w
  = ((if correct then
        update_self (set_feedback_var (str "Correct! 🎉")) ;;; _next
      else
        update_self (set_feedback_var
                       (str "Not quite. Answer: " ++ VocabularyItem.english item))) ;;;
     _refresh_stats format_percent) w1.
Proof.
  intros Hitem Hanswer correct w1.
  unfold _check_answer. unfold bind at 1. unfold get at 1. cbv beta iota.
  rewrite Hanswer. unfold bind at 1. unfold on_exercise at 1.
  rewrite (check_answer_shown unicode_lower (c :: answer)
             (mkWorld (exercise (self w)) (random w)) item Hitem).
  fold correct. cbv beta iota. cbn [self random]. fold w1.
  destruct correct; [reflexivity|].
  unfold bind. unfold get at 1. cbv beta iota.
  replace (FlashcardExercise.current_item (exercise (self w1))) with (Some item)
    by (symmetry; exact Hitem).
  reflexivity.
Qed.

Lemma flashcard_tab_check_wrong (w : World t) (item : VocabularyItem.t) (c : N)
      (answer : pystr) :
  FlashcardExercise.current_item (exercise (self w)) = Some item ->
  answer_var (self w) = c :: answer ->
  str_eq (lower unicode_lower (strip (c :: answer)))
         (lower unicode_lower (VocabularyItem.english item)) = false ->
  let state' := ExerciseState.register_attempt false
                  (FlashcardExercise.state (exercise (self w))) in
  _check_answer unicode_lower format_percent w
  = (Ok tt,
     mkWorld (mk (FlashcardExercise.set_state state' (exercise (self w)))
                 (prompt_var (self w))
                 (str "Not quite. Answer: " ++ VocabularyItem.english item)
                 (answer_var (self w)) (category_var (self w))
                 (StatsBar.update_state format_percent
                    (ExerciseState.accuracy state')
                    (ExerciseState.current_streak state') (stats (self w))))
             (random w)).
Proof.
  intros Hitem Hanswer Hwrong state'.
  rewrite (flashcard_tab_check_shown w item c answer Hitem Hanswer), Hwrong.
  reflexivity.
Qed.

Lemma flashcard_tab_check_right (w : World t) (item : VocabularyItem.t) (c : N)
      (answer : pystr) :
  FlashcardExercise.current_item (exercise (self w)) = Some item ->
  answer_var (self w) = c :: answer ->
  str_eq (lower unicode_lower (strip (c :: answer)))
         (lower unicode_lower (VocabularyItem.english item)) = true ->
  let state' := ExerciseState.register_attempt true
                  (FlashcardExercise.state (exercise (self w))) in
  exists next_item,
    next_item ∈ VOCABULARY
    /\ (forall name, FlashcardExercise.category (exercise (self w)) = Some name ->
                     name ∈ categories VOCABULARY ->
                     VocabularyItem.category next_item = name)
    /\ _check_answer unicode_lower format_percent w
       = (Ok tt,
          mkWorld (mk (FlashcardExercise.mk
                         (FlashcardExercise.category (exercise (self w)))
                         state' (Some next_item))
                      (str "Translate: " ++ VocabularyItem.french next_item)
                      (str "") (str "") (category_var (self w))
                      (StatsBar.update_state format_percent
                         (ExerciseState.accuracy state')
                         (ExerciseState.current_streak state') (stats (self w))))
                  (mkRng (draws (random w)) (S (cursor (random w))))).
Proof.
  intros Hitem Hanswer Hright state'.
  rewrite (flashcard_tab_check_shown w item c answer Hitem Hanswer), Hright.
  match goal with
  | |- context [(_ ;;; _next) ;;; _] =>
      unfold bind at 1 2; unfold update_self at 1; unfold modify at 1
  end.
  match goal with
  | |- context [_next ?w2] =>
      destruct (flashcard_tab_next_run w2) as (next_item & Hin & Hcat & Hrun);
      rewrite Hrun
  end.
  exists next_item. split; [assumption | split; [exact Hcat | reflexivity]].
Qed.

Lemma flashcard_tab_check_unshown (w : World t) (c : N) (answer : pystr) :
  FlashcardExercise.current_item (exercise (self w)) = None ->
  answer_var (self w) = c :: answer ->
  exists item,
    item ∈ VOCABULARY
    /\ fst (FlashcardExercise.next_prompt (mkWorld (exercise (self w)) (random w)))
       = Ok item
    /\ _check_answer unicode_lower format_percent w
       = _check_answer unicode_lower format_percent
           (mkWorld (set_exercise
                       (FlashcardExercise.set_current_item (Some item) (exercise (self w)))
                       (self w))
                    (mkRng (draws (random w)) (S (cursor (random w))))).
Proof.
  intros Hnone Hanswer.
  destruct (next_prompt_run (mkWorld (exercise (self w)) (random w)))
    as (item & Hrun & Hin).
  exists item. split; [assumption | split; [now rewrite Hrun|]].
  unfold _check_answer, bind, get, on_exercise. cbv beta iota.
  cbn [self random answer_var set_exercise exercise].
  rewrite Hanswer.
  rewrite (check_answer_unshown unicode_lower (c :: answer)
             (mkWorld (exercise (self w)) (random w)) Hnone), Hrun.
  reflexivity.
Qed.





End FlashcardTabs.





Section FlashcardTabSessions.

Import FlashcardTab.

Variable unicode_lower : pystr -> nat -> N -> pystr.
Variable format_percent : Q -> pystr.

Lemma stats_show_update (state : ExerciseState.t) (bar : StatsBar.t) :
  stats_show format_percent state
    (StatsBar.update_state format_percent (ExerciseState.accuracy state)
       (ExerciseState.current_streak state) bar).
Proof. split; reflexivity. Qed.

(** What the flashcard tab satisfies throughout a session. *)
Let tab_sound (w : World t) : Prop :=
  stats_show format_percent (FlashcardExercise.state (exercise (self w))) (stats (self w))
  /\ counters_ordered (FlashcardExercise.state (exercise (self w)))
  /\ forall item, FlashcardExercise.current_item (exercise (self w)) = Some item ->
                  item ∈ VOCABULARY.

Let step_ok (event : flashcard_event) (w w' : World t) : Prop :=
  flashcard_tab_handle unicode_lower format_percent event w = (Ok tt, w')
  /\ tab_sound w'
  /\ (prompt_shows (self w) -> prompt_shows (self w'))
  /\ (event <> PressCheck ->
      FlashcardExercise.state (exercise (self w'))
      = FlashcardExercise.state (exercise (self w)))
  /\ (event = PressNext \/ (exists c, event = ChooseCategory c) ->
      prompt_shows (self w')).

Lemma flashcard_tab_next_step (w : World t) :
  tab_sound w ->
  exists w', _next w = (Ok tt, w') /\ tab_sound w' /\ prompt_shows (self w')
             /\ FlashcardExercise.state (exercise (self w'))
                = FlashcardExercise.state (exercise (self w)).
Proof.
  intros (Hstats & Hord & Hitem).
  destruct (flashcard_tab_next_run w) as (item & Hin & _ & Hrun).
  eexists. split; [exact Hrun|]. split; [|split].
  - refine (conj _ (conj _ _)); [exact Hstats | exact Hord |].
    intros item' [= <-]. exact Hin.
  - exists item. repeat split. exact Hin.
  - reflexivity.
Qed.

Lemma flashcard_tab_check_step_shown (w : World t) (item : VocabularyItem.t) :
  tab_sound w ->
  FlashcardExercise.current_item (exercise (self w)) = Some item ->
  exists w',
    _check_answer unicode_lower format_percent w = (Ok tt, w')
    /\ tab_sound w'
    /\ (prompt_var (self w) = str "Translate: " ++ VocabularyItem.french item ->
        prompt_shows (self w')).
Proof.
  intros (Hstats & Hord & Hitem) Hcur.
  destruct (answer_var (self w)) as [|c answer] eqn:Hanswer.
  - eexists. split.
    + unfold _check_answer, bind, get. cbv beta iota. rewrite Hanswer. reflexivity.
    + split; [refine (conj Hstats (conj Hord Hitem))|].
      intros Hprompt. exists item. repeat split; [exact Hcur | now apply Hitem | exact Hprompt].
  - destruct (str_eq (lower unicode_lower (strip (c :: answer)))
                     (lower unicode_lower (VocabularyItem.english item))) eqn:E.
    + destruct (flashcard_tab_check_right unicode_lower format_percent
                  w item c answer Hcur Hanswer E) as (next_item & Hin & _ & Hrun).
      eexists. split; [exact Hrun|]. split.
      * refine (conj _ (conj _ _)).
        -- apply stats_show_update.
        -- now apply register_attempt_ordered.
        -- intros item' [= <-]. exact Hin.
      * intros _. exists next_item. repeat split. exact Hin.
    + eexists. split;
        [exact (flashcard_tab_check_wrong unicode_lower format_percent
                  w item c answer Hcur Hanswer E)|].
      split.
      * refine (conj _ (conj _ _)).
        -- apply stats_show_update.
        -- now apply register_attempt_ordered.
        -- exact Hitem.
      * intros Hprompt. exists item.
        repeat split; [exact Hcur | now apply Hitem | exact Hprompt].
Qed.

Lemma flashcard_tab_step (event : flashcard_event) (w : World t) :
  tab_sound w -> exists w', step_ok event w w'.
Proof.
  intros Hsound. pose proof Hsound as (Hstats & Hord & Hitem).
  assert (forall e : flashcard_event,
             e <> PressNext -> (forall c, e <> ChooseCategory c) ->
             forall P : Prop, e = PressNext \/ (exists c, e = ChooseCategory c) -> P)
    as Hother.
  { intros e H1 H2 P [H|[c H]]; [contradiction | now apply H2 in H]. }
  destruct event as [| | |c|text]; unfold step_ok; cbn [flashcard_tab_handle].
  - destruct (flashcard_tab_next_step w Hsound) as (w' & Hrun & Hs & Hp & Hst).
    exists w'. auto.
  - destruct (FlashcardExercise.current_item (exercise (self w))) as [item|] eqn:Hcur.
    + destruct (flashcard_tab_check_step_shown w item Hsound Hcur)
        as (w' & Hrun & Hs & Hp).
      exists w'.
      split; [exact Hrun | split; [exact Hs | split; [|split; [congruence|]]]].
      * intros (item' & Hcur' & _ & Hprompt). apply Hp. congruence.
      * apply Hother; [discriminate | intros c; discriminate].
    + destruct (answer_var (self w)) as [|c answer] eqn:Hanswer.
      * eexists. split.
        -- unfold _check_answer, bind, get. cbv beta iota. rewrite Hanswer. reflexivity.
        -- split; [exact Hsound | split; [|split; [congruence|]]].
           ++ intros (item' & Hcur' & _). congruence.
           ++ apply Hother; [discriminate | intros c; discriminate].
      * destruct (flashcard_tab_check_unshown unicode_lower format_percent
                    w c answer Hcur Hanswer) as (item & Hin & _ & Hrun).
        match type of Hrun with
        | _ = _check_answer _ _ ?w1 =>
            destruct (flashcard_tab_check_step_shown w1 item) as (w' & Hrun' & Hs & _)
        end.
        -- refine (conj Hstats (conj Hord _)). intros item' [= <-]. exact Hin.
        -- reflexivity.
        -- exists w'. rewrite Hrun.
           split; [exact Hrun' | split; [exact Hs | split; [|split; [congruence|]]]].
           ++ intros (item' & Hcur' & _). congruence.
           ++ apply Hother; [discriminate | intros c'; discriminate].
  - unfold _reveal_answer, bind, get, update_self, modify. cbv beta.
    destruct (FlashcardExercise.current_item (exercise (self w))) as [item|] eqn:Hcur.
    + eexists. split; [reflexivity|].
      split; [refine (conj Hstats (conj Hord _)) | split; [|split; [reflexivity|]]].
      * intros item' Hitem'. cbn in Hitem'. rewrite Hcur in Hitem'.
        injection Hitem' as <-. now apply Hitem.
      * intros (item' & Hcur' & Hin' & Hprompt). exists item'.
        split; [exact Hcur' | split; [exact Hin' | exact Hprompt]].
      * apply Hother; [discriminate | intros c; discriminate].
    + eexists. split; [reflexivity|].
      split; [refine (conj Hstats (conj Hord _)) | split; [|split; [reflexivity|]]].
      * intros item' Hitem'. rewrite Hcur in Hitem'. discriminate.
      * intros H. exact H.
      * apply Hother; [discriminate | intros c; discriminate].
  - unfold _change_category, bind, update_self, modify. cbv beta iota.
    match goal with
    | |- context [_next ?w2] =>
        destruct (flashcard_tab_next_step w2) as (w' & Hrun & Hs & Hp & Hst)
    end.
    { exact Hsound. }
    exists w'. rewrite Hrun. auto.
  - eexists. split; [reflexivity|].
    split; [exact Hsound | split; [|split; [reflexivity|]]].
    + intros H. exact H.
    + apply Hother; [discriminate | intros c; discriminate].
Qed.

Lemma flashcard_tab_session_snoc events event g :
  flashcard_tab_session unicode_lower format_percent (events ++ [event]) g
  = snd (flashcard_tab_handle unicode_lower format_percent event
           (flashcard_tab_session unicode_lower format_percent events g)).
Proof. unfold flashcard_tab_session. now rewrite fold_left_app. Qed.

Lemma stats_show_init :
  format_percent 0%Q = str "0%" ->
  stats_show format_percent ExerciseState.init StatsBar.init.
Proof.
  intros Hzero. split.
  - change (ExerciseState.accuracy ExerciseState.init) with 0%Q.
    rewrite Hzero. reflexivity.
  - reflexivity.
Qed.

Lemma flashcard_tab_session_invariant events g :
  format_percent 0%Q = str "0%" ->
  tab_sound (flashcard_tab_session unicode_lower format_percent events g)
  /\ (forall first rest,
        events = first :: rest ->
        first = PressNext \/ (exists c, first = ChooseCategory c) ->
        prompt_shows (self (flashcard_tab_session unicode_lower format_percent events g))).
Proof.
  intros Hzero. induction events as [|event events [IH1 IH2]] using rev_ind.
  - split; [|discriminate].
    refine (conj _ (conj _ _)).
    + exact (stats_show_init Hzero).
    + unfold counters_ordered. cbn. lia.
    + discriminate.
  - rewrite flashcard_tab_session_snoc.
    destruct (flashcard_tab_step event _ IH1) as (w' & Hrun & Hs & Hkeep & _ & Hset).
    rewrite Hrun. cbn [snd]. split; [exact Hs|].
    intros first rest Hev Hfirst.
    destruct events as [|e0 events].
    + cbn in Hev. injection Hev as <- _. now apply Hset.
    + cbn in Hev. injection Hev as -> _.
      apply Hkeep. eapply IH2; [reflexivity | exact Hfirst].
Qed.

(** X23. Throughout any session on the flashcard tab, whatever is typed,
    pressed or chosen, no handler raises; the statistics bar always shows
    the accuracy and the streak of the exercise, events other than Check
    leave the session state alone, and the counters stay ordered. If the
    session begins with Next or with the choice of a category, the prompt
    always asks for the catalog item the exercise holds. (The bar starts
    as "Accuracy: 0%", so the percent format must print 0 as "0%".) *)
Theorem flashcard_tab_session_sound (events : list flashcard_event) (g : Rng) :
  format_percent 0%Q = str "0%" ->
  let w := flashcard_tab_session unicode_lower format_percent events g in
  (forall event,
      exists w',
        flashcard_tab_handle unicode_lower format_percent event w = (Ok tt, w')
        /\ (event <> PressCheck ->
            FlashcardExercise.state (exercise (self w'))
            = FlashcardExercise.state (exercise (self w))))
  /\ stats_show format_percent (FlashcardExercise.state (exercise (self w)))
                (stats (self w))
  /\ counters_ordered (FlashcardExercise.state (exercise (self w)))
  /\ (forall first rest,
        events = first :: rest ->
        first = PressNext \/ (exists c, first = ChooseCategory c) ->
        prompt_shows (self w)).
Proof.
  intros Hzero w.
  destruct (flashcard_tab_session_invariant events g Hzero) as [Hsound Hprompt].
  pose proof Hsound as (Hstats & Hord & _).
  split; [|split; [exact Hstats | split; [exact Hord | exact Hprompt]]].
  intros event.
  destruct (flashcard_tab_step event w Hsound) as (w' & Hrun & _ & _ & Hstate & _).
  exists w'. split; [exact Hrun | exact Hstate].
Qed.

End FlashcardTabSessions.

Lemma flashcard_tab_session_sound_witness :
  let unicode_lower : pystr -> nat -> N -> pystr := fun _ _ c => [c] in
  let format_percent : Q -> pystr := fun _ => str "0%" in
  let events := [PressNext; TypeAnswer (str "x"); PressCheck; PressReveal] in
  let w := flashcard_tab_session unicode_lower format_percent events
             (mkRng (fun n => n) O) in
  prompt_shows (self w)
  /\ stats_show format_percent
       (FlashcardExercise.state (FlashcardTab.exercise (self w)))
       (FlashcardTab.stats (self w)).
Proof.
  intros unicode_lower format_percent events w.
  destruct (flashcard_tab_session_sound unicode_lower format_percent events
              (mkRng (fun n => n) O) eq_refl) as (_ & Hstats & _ & Hprompt).
  split; [|exact Hstats].
  apply (Hprompt PressNext [TypeAnswer (str "x"); PressCheck; PressReveal]);
    [reflexivity | now left].
Defined.

(** ** gui.py: the conjugation tab *)

Section ConjugationTabs.

Import ConjugationTab.

Variable unicode_lower : pystr -> nat -> N -> pystr.
Variable format_percent : Q -> pystr.

Lemma conjugation_tab_check_shown (w : World t) (pattern : ConjugationPattern.t)
      (expected : pystr) (c : N) (answer : pystr) :
  ConjugationExercise.current_pattern (exercise (self w)) = Some pattern ->
  getitem (ConjugationPattern.answers pattern)
          (ConjugationExercise.current_index (exercise (self w))) = Ok expected ->
  answer_var (self w) = c :: answer ->
  let correct := str_eq (lower unicode_lower (strip (c :: answer)))
                        (lower unicode_lower expected) in
  let state' := ExerciseState.register_attempt correct
                  (ConjugationExercise.state (exercise (self w))) in
  _check unicode_lower format_percent w
  = (Ok tt,
     mkWorld (mk (ConjugationExercise.set_state state' (exercise (self w)))
                 (verb_var (self w)) (pronoun_var (self w))
                 (if correct then str "Great job! ✅"
                  else str "Try again. Answer: " ++ expected)
                 (answer_var (self w))
                 (StatsBar.update_state format_percent
                    (ExerciseState.accuracy state')
                    (ExerciseState.current_streak state') (stats (self w))))
             (random w)).
Proof.
  destruct w as [[e verb pronoun feedback typed bar] g].
  cbn [self random exercise verb_var pronoun_var answer_var stats].
  intros Hp Hexp ->.
  unfold _check, bind, get, on_exercise. cbv beta iota.
  cbn [self random exercise answer_var].
  rewrite (conjugation_check_answer_shown unicode_lower (c :: answer)
             (mkWorld e g) pattern expected Hp Hexp).
  cbv beta iota zeta.
  destruct (str_eq (lower unicode_lower (strip (c :: answer)))
                   (lower unicode_lower expected)).
  - reflexivity.
  - cbn [self random exercise set_exercise ConjugationExercise.current_pattern
         ConjugationExercise.current_index ConjugationExercise.set_state].
    rewrite Hp. unfold lift_result. rewrite Hexp. reflexivity.
Qed.


End ConjugationTabs.


Lemma flashcard_session_safe_witness :
  let unicode_lower : pystr -> nat -> N -> pystr := fun _ _ c => [c] in
  let calls := [FlashCheckAnswer (str "hello"); FlashSetCategory (Some (str "food"));
                FlashNextPrompt; FlashCheckAnswer (str "x")] in
  let w := flashcard_session unicode_lower calls (mkRng (fun n => n) O) in
  ExerciseState.total_attempts (FlashcardExercise.state (self w)) = 2
  /\ exists item, FlashcardExercise.current_item (self w) = Some item /\ item ∈ VOCABULARY.
Proof.
  intros unicode_lower calls w.
  destruct (flashcard_session_safe unicode_lower calls (mkRng (fun n => n) O))
    as (_ & Htotal & _ & Hitem).
  split; [exact Htotal|].
  fold w in Hitem.
  destruct (FlashcardExercise.current_item (self w)) as [item|] eqn:Hcur.
  - exists item. split; [reflexivity | now apply Hitem].
  - vm_compute in Hcur. discriminate Hcur.
Defined.

Lemma conjugation_session_safe_witness :
  let unicode_lower : pystr -> nat -> N -> pystr := fun _ _ c => [c] in
  let calls := [CallCheckAnswer (str "suis"); CallCyclePrompt; CallCyclePrompt;
                CallCheckAnswer (str "x"); CallNextPrompt] in
  let w := conjugation_session unicode_lower calls (mkRng (fun n => n) O) in
  ExerciseState.total_attempts (ConjugationExercise.state (self w)) = 2
  /\ exists pattern,
      ConjugationExercise.current_pattern (self w) = Some pattern
      /\ pattern ∈ PRESENT_TENSE.
Proof.
  intros unicode_lower calls w.
  destruct (conjugation_session_safe unicode_lower calls (mkRng (fun n => n) O))
    as (_ & Hshown & Htotal & _).
  split; [exact Htotal|].
  apply Hshown. discriminate.
Defined.

(** X25. Choosing a category on the flashcard tab stores it in the
    exercise and shows a new prompt at once: a catalog item is drawn and
    displayed, answer and feedback are emptied, the session state and the
    statistics are untouched, and when the chosen name is one that
    [categories(VOCABULARY)] lists, the displayed item is of that
    category. *)
Theorem flashcard_tab_change_category (w : World FlashcardTab.t) (c : pystr) :
  exists item w',
    FlashcardTab._change_category c w = (Ok tt, w')
    /\ item ∈ VOCABULARY
    /\ FlashcardTab.exercise (self w')
       = FlashcardExercise.mk (Some c)
           (FlashcardExercise.state (FlashcardTab.exercise (self w))) (Some item)
    /\ FlashcardTab.prompt_var (self w') = str "Translate: " ++ VocabularyItem.french item
    /\ FlashcardTab.answer_var (self w') = []
    /\ FlashcardTab.feedback_var (self w') = []
    /\ FlashcardTab.stats (self w') = FlashcardTab.stats (self w)
    /\ random w' = mkRng (draws (random w)) (S (cursor (random w)))
    /\ (c ∈ categories VOCABULARY -> VocabularyItem.category item = c).
Proof.
  unfold FlashcardTab._change_category, bind, update_self, modify. cbv beta iota.
  match goal with
  | |- context [FlashcardTab._next ?w2] =>
      destruct (flashcard_tab_next_run w2) as (item & Hin & Hcat & Hrun)
  end.
  exists item. eexists. split; [exact Hrun|].
  cbn [self random FlashcardTab.exercise FlashcardTab.prompt_var FlashcardTab.answer_var
       FlashcardTab.feedback_var FlashcardTab.stats FlashcardTab.set_exercise].
  repeat split; try assumption; try reflexivity.
  intros Hlisted. apply Hcat; [reflexivity | exact Hlisted].
Qed.

Lemma flashcard_tab_change_category_witness :
  let tab := FlashcardTab.init FlashcardExercise.init in
  exists item w',
    FlashcardTab._change_category (str "animals") (mkWorld tab (mkRng (fun n => n) O))
    = (Ok tt, w')
    /\ FlashcardTab.prompt_var (self w') = str "Translate: " ++ VocabularyItem.french item
    /\ VocabularyItem.category item = str "animals".
Proof.
  intros tab.
  destruct (flashcard_tab_change_category (mkWorld tab (mkRng (fun n => n) O))
              (str "animals"))
    as (item & w' & Hrun & _ & _ & Hprompt & _ & _ & _ & _ & Hcat).
  exists item, w'. split; [exact Hrun | split; [exact Hprompt|]].
  apply Hcat. apply list_elem_of_lookup_2 with 3%nat. reflexivity.
Defined.

(** ** gui.py: sessions on the conjugation tab *)

Section ConjugationTabSessions.

Import ConjugationTab.

Variable unicode_lower : pystr -> nat -> N -> pystr.
Variable format_percent : Q -> pystr.

Lemma conjugation_tab_next_run (w : World t) :
  exists pattern,
    pattern ∈ PRESENT_TENSE
    /\ _next w
       = (Ok tt,
          mkWorld (mk (ConjugationExercise.mk
                         (ConjugationExercise.state (exercise (self w))) (Some pattern) 0)
                      (str "Verb: " ++ ConjugationPattern.infinitive pattern)
                      (str "Pronoun: " ++ str "je") (str "") (str "") (stats (self w)))
                  (mkRng (draws (random w)) (S (cursor (random w))))).
Proof.
  destruct (conjugation_next_prompt_run (mkWorld (exercise (self w)) (random w)))
    as (pattern & Hrun & Hin).
  exists pattern. split; [assumption|].
  unfold _next, bind, on_exercise, update_self, modify. now rewrite Hrun.
Qed.

Lemma conjugation_tab_cycle_shown (w : World t) (pattern : ConjugationPattern.t) :
  ConjugationExercise.current_pattern (exercise (self w)) = Some pattern ->
  let i := (ConjugationExercise.current_index (exercise (self w)) + 1) mod 6 in
  exists label,
    ConjugationPattern.pronouns pattern !! Z.to_nat i = Some label
    /\ _cycle_pronoun w
       = (Ok tt,
          mkWorld (mk (ConjugationExercise.set_current_index i (exercise (self w)))
                      (str "Verb: " ++ ConjugationPattern.infinitive pattern)
                      (str "Pronoun: " ++ label) (str "") (str "") (stats (self w)))
                  (random w)).
Proof.
  intros Hp i.
  destruct (cycle_prompt_run (mkWorld (exercise (self w)) (random w)) pattern Hp)
    as (label & Hlabel & Hrun).
  destruct (getitem_nonneg (ConjugationPattern.pronouns pattern) i)
    as (label' & Hget & Hlook).
  { rewrite pronouns_length. apply Z.mod_pos_bound. lia. }
  cbn [self] in Hlabel. fold i in Hlabel. rewrite Hlabel in Hget. injection Hget as <-.
  exists label. split; [exact Hlook|].
  unfold _cycle_pronoun, bind, on_exercise, update_self, modify. now rewrite Hrun.
Qed.

Lemma conjugation_tab_cycle_unshown (w : World t) :
  ConjugationExercise.current_pattern (exercise (self w)) = None ->
  _cycle_pronoun w = _next w.
Proof.
  intros Hnone. unfold _cycle_pronoun, _next, bind, on_exercise.
  now rewrite (cycle_prompt_unshown (mkWorld (exercise (self w)) (random w)) Hnone).
Qed.

Lemma conjugation_tab_check_unshown (w : World t) (c : N) (answer : pystr) :
  ConjugationExercise.current_pattern (exercise (self w)) = None ->
  answer_var (self w) = c :: answer ->
  exists pattern,
    pattern ∈ PRESENT_TENSE
    /\ _check unicode_lower format_percent w
       = _check unicode_lower format_percent
           (mkWorld (set_exercise
                       (ConjugationExercise.mk
                          (ConjugationExercise.state (exercise (self w)))
                          (Some pattern) 0) (self w))
                    (mkRng (draws (random w)) (S (cursor (random w))))).
Proof.
  intros Hnone Hanswer.
  destruct (conjugation_next_prompt_run (mkWorld (exercise (self w)) (random w)))
    as (pattern & Hrun & Hin).
  exists pattern. split; [assumption|].
  unfold _check, bind, get, on_exercise. cbv beta iota.
  cbn [self random answer_var set_exercise exercise].
  rewrite Hanswer.
  rewrite (conjugation_check_answer_unshown unicode_lower (c :: answer)
             (mkWorld (exercise (self w)) (random w)) Hnone), Hrun.
  reflexivity.
Qed.

(** What the conjugation tab satisfies throughout a session. *)
Let tab_sound (w : World t) : Prop :=
  stats_show format_percent (ConjugationExercise.state (exercise (self w))) (stats (self w))
  /\ counters_ordered (ConjugationExercise.state (exercise (self w)))
  /\ slot_valid (exercise (self w))
  /\ forall pattern,
      ConjugationExercise.current_pattern (exercise (self w)) = Some pattern ->
      pattern ∈ PRESENT_TENSE.

Let step_ok (event : conjugation_event) (w w' : World t) : Prop :=
  conjugation_tab_handle unicode_lower format_percent event w = (Ok tt, w')
  /\ tab_sound w'
  /\ (verb_shows (self w) -> verb_shows (self w'))
  /\ (event <> PressCheckConjugation ->
      ConjugationExercise.state (exercise (self w'))
      = ConjugationExercise.state (exercise (self w)))
  /\ (event = PressNewVerb \/ event = PressNextPronoun -> verb_shows (self w')).

Lemma conjugation_tab_next_step (w : World t) :
  tab_sound w ->
  exists w', _next w = (Ok tt, w') /\ tab_sound w' /\ verb_shows (self w')
             /\ ConjugationExercise.state (exercise (self w'))
                = ConjugationExercise.state (exercise (self w)).
Proof.
  intros (Hstats & Hord & Hslot & Hpat).
  destruct (conjugation_tab_next_run w) as (pattern & Hin & Hrun).
  eexists. split; [exact Hrun|]. split; [|split].
  - refine (conj Hstats (conj Hord (conj _ _))).
    + unfold slot_valid. cbn. lia.
    + intros p [= <-]. exact Hin.
  - exists pattern, (str "je"). repeat split. exact Hin.
  - reflexivity.
Qed.

Lemma conjugation_tab_check_step_shown (w : World t) (pattern : ConjugationPattern.t) :
  tab_sound w ->
  ConjugationExercise.current_pattern (exercise (self w)) = Some pattern ->
  exists w',
    _check unicode_lower format_percent w = (Ok tt, w')
    /\ tab_sound w'
    /\ (verb_shows (self w) -> verb_shows (self w')).
Proof.
  intros (Hstats & Hord & Hslot & Hpat) Hp.
  destruct (answer_var (self w)) as [|c answer] eqn:Hanswer.
  - eexists. split.
    + unfold _check, bind, get. cbv beta iota. rewrite Hanswer. reflexivity.
    + split; [exact (conj Hstats (conj Hord (conj Hslot Hpat)))|].
      intros (p & label & H1 & H2 & H3 & H4 & H5). exists p, label. auto.
  - destruct (getitem_nonneg (ConjugationPattern.answers pattern)
                (ConjugationExercise.current_index (exercise (self w))))
      as (expected & Hexp & _); [now rewrite answers_length|].
    eexists. split;
      [exact (conjugation_tab_check_shown unicode_lower format_percent
                w pattern expected c answer Hp Hexp Hanswer)|].
    split.
    + refine (conj _ (conj _ (conj Hslot Hpat))).
      * apply stats_show_update.
      * now apply register_attempt_ordered.
    + intros (p & label & H1 & H2 & H3 & H4 & H5). exists p, label. auto.
Qed.

Lemma conjugation_tab_step (event : conjugation_event) (w : World t) :
  tab_sound w -> exists w', step_ok event w w'.
Proof.
  intros Hsound. pose proof Hsound as (Hstats & Hord & Hslot & Hpat).
  destruct event as [| | |text]; unfold step_ok; cbn [conjugation_tab_handle].
  - destruct (conjugation_tab_next_step w Hsound) as (w' & Hrun & Hs & Hv & Hst).
    exists w'. auto.
  - destruct (ConjugationExercise.current_pattern (exercise (self w)))
      as [pattern|] eqn:Hp.
    + destruct (conjugation_tab_cycle_shown w pattern Hp) as (label & Hlook & Hrun).
      assert (verb_shows
                (mk (ConjugationExercise.set_current_index
                       ((ConjugationExercise.current_index (exercise (self w)) + 1) mod 6)
                       (exercise (self w)))
                    (str "Verb: " ++ ConjugationPattern.infinitive pattern)
                    (str "Pronoun: " ++ label) (str "") (str "") (stats (self w))))
        as Hshows.
      { exists pattern, label.
        cbn [exercise verb_var pronoun_var ConjugationExercise.current_pattern
             ConjugationExercise.current_index ConjugationExercise.set_current_index].
        repeat split; try assumption; try reflexivity. now apply Hpat. }
      eexists. split; [exact Hrun|]. split; [|split; [|split]].
      * refine (conj Hstats (conj Hord (conj _ _))).
        -- unfold slot_valid. cbn. apply Z.mod_pos_bound. lia.
        -- intros p Hp'. cbn in Hp'. rewrite Hp in Hp'. injection Hp' as <-.
           now apply Hpat.
      * intros _. exact Hshows.
      * reflexivity.
      * intros _. exact Hshows.
    + rewrite (conjugation_tab_cycle_unshown w Hp).
      destruct (conjugation_tab_next_step w Hsound) as (w' & Hrun & Hs & Hv & Hst).
      exists w'. auto.
  - assert (PressCheckConjugation = PressNewVerb
            \/ PressCheckConjugation = PressNextPronoun -> False) as Hno
      by (intros [H|H]; discriminate).
    destruct (ConjugationExercise.current_pattern (exercise (self w)))
      as [pattern|] eqn:Hp.
    + destruct (conjugation_tab_check_step_shown w pattern Hsound Hp)
        as (w' & Hrun & Hs & Hv).
      exists w'. split; [exact Hrun | split; [exact Hs | split; [exact Hv|]]].
      split; [congruence | intros H; now apply Hno in H].
    + destruct (answer_var (self w)) as [|c answer] eqn:Hanswer.
      * eexists. split.
        -- unfold _check, bind, get. cbv beta iota. rewrite Hanswer. reflexivity.
        -- split; [exact Hsound | split; [intros H; exact H | split; [congruence|]]].
           intros H; now apply Hno in H.
      * destruct (conjugation_tab_check_unshown w c answer Hp Hanswer)
          as (pattern & Hin & Hrun).
        match type of Hrun with
        | _ = _check _ _ ?w1 =>
            destruct (conjugation_tab_check_step_shown w1 pattern) as (w' & Hrun' & Hs & _)
        end.
        -- refine (conj Hstats (conj Hord (conj _ _))).
           ++ unfold slot_valid. cbn. lia.
           ++ intros p [= <-]. exact Hin.
        -- reflexivity.
        -- exists w'. rewrite Hrun.
           split; [exact Hrun' | split; [exact Hs | split; [|split; [congruence|]]]].
           ++ intros (p & label & Hp' & _). rewrite Hp in Hp'. discriminate.
           ++ intros H; now apply Hno in H.
  - eexists. split; [reflexivity|].
    split; [|split; [|split; [reflexivity|]]].
    + exact Hsound.
    + intros H. exact H.
    + intros [H|H]; discriminate.
Qed.

Lemma conjugation_tab_session_snoc events event g :
  conjugation_tab_session unicode_lower format_percent (events ++ [event]) g
  = snd (conjugation_tab_handle unicode_lower format_percent event
           (conjugation_tab_session unicode_lower format_percent events g)).
Proof. unfold conjugation_tab_session. now rewrite fold_left_app. Qed.

Lemma conjugation_tab_session_invariant events g :
  format_percent 0%Q = str "0%" ->
  tab_sound (conjugation_tab_session unicode_lower format_percent events g)
  /\ (forall first rest,
        events = first :: rest ->
        first = PressNewVerb \/ first = PressNextPronoun ->
        verb_shows (self (conjugation_tab_session unicode_lower format_percent events g))).
Proof.
  intros Hzero. induction events as [|event events [IH1 IH2]] using rev_ind.
  - split; [|discriminate].
    refine (conj _ (conj _ (conj _ _))).
    + exact (stats_show_init format_percent Hzero).
    + unfold counters_ordered. cbn. lia.
    + unfold slot_valid. cbn. lia.
    + discriminate.
  - rewrite conjugation_tab_session_snoc.
    destruct (conjugation_tab_step event _ IH1) as (w' & Hrun & Hs & Hkeep & _ & Hset).
    rewrite Hrun. cbn [snd]. split; [exact Hs|].
    intros first rest Hev Hfirst.
    destruct events as [|e0 events].
    + cbn in Hev. injection Hev as <- _. now apply Hset.
    + cbn in Hev. injection Hev as -> _.
      apply Hkeep. eapply IH2; [reflexivity | exact Hfirst].
Qed.

(** X26. Throughout any session on the conjugation tab (typing, Check,
    Next Pronoun, New Verb) no handler raises; the statistics bar always
    shows the accuracy and the streak of the exercise, events other than
    Check leave the session state alone, the counters stay ordered and the
    active slot stays one of the six positions. If the session begins with
    New Verb or Next Pronoun, the tab always displays the verb of the
    pattern the exercise holds and the pronoun of its active slot. (The bar
    starts as "Accuracy: 0%", so the percent format must print 0 as
    "0%".) *)
Theorem conjugation_tab_session_sound (events : list conjugation_event) (g : Rng) :
  format_percent 0%Q = str "0%" ->
  let w := conjugation_tab_session unicode_lower format_percent events g in
  (forall event,
      exists w',
        conjugation_tab_handle unicode_lower format_percent event w = (Ok tt, w')
        /\ (event <> PressCheckConjugation ->
            ConjugationExercise.state (exercise (self w'))
            = ConjugationExercise.state (exercise (self w))))
  /\ stats_show format_percent (ConjugationExercise.state (exercise (self w)))
                (stats (self w))
  /\ counters_ordered (ConjugationExercise.state (exercise (self w)))
  /\ slot_valid (exercise (self w))
  /\ (forall first rest,
        events = first :: rest ->
        first = PressNewVerb \/ first = PressNextPronoun ->
        verb_shows (self w)).
Proof.
  intros Hzero w.
  destruct (conjugation_tab_session_invariant events g Hzero) as [Hsound Hshows].
  pose proof Hsound as (Hstats & Hord & Hslot & _).
  split; [|split; [exact Hstats | split; [exact Hord | split; [exact Hslot | exact Hshows]]]].
  intros event.
  destruct (conjugation_tab_step event w Hsound) as (w' & Hrun & _ & _ & Hstate & _).
  exists w'. split; [exact Hrun | exact Hstate].
Qed.

End ConjugationTabSessions.

Lemma conjugation_tab_session_sound_witness :
  let unicode_lower : pystr -> nat -> N -> pystr := fun _ _ c => [c] in
  let format_percent : Q -> pystr := fun _ => str "0%" in
  let events := [PressNextPronoun; TypeConjugation (str "x"); PressCheckConjugation;
                 PressNextPronoun] in
  let w := conjugation_tab_session unicode_lower format_percent events
             (mkRng (fun n => n) O) in
  verb_shows (self w)
  /\ stats_show format_percent
       (ConjugationExercise.state (ConjugationTab.exercise (self w)))
       (ConjugationTab.stats (self w)).
Proof.
  intros unicode_lower format_percent events w.
  destruct (conjugation_tab_session_sound unicode_lower format_percent events
              (mkRng (fun n => n) O) eq_refl) as (_ & Hstats & _ & _ & Hshows).
  split; [|exact Hstats].
  apply (Hshows PressNextPronoun
           [TypeConjugation (str "x"); PressCheckConjugation; PressNextPronoun]);
    [reflexivity | now right].
Defined.
